(** * Maintaining viability with multiple needs: the two sweep scripts

    A shallow embedding of [2D_adaptive_region.py] and [FixedCondSurvival.py].
    Python's [float] and numpy's [float64] are IEEE 754 binary64 numbers, which
    is what Rocq's primitive [float] is, so the arithmetic and the comparisons
    of the scripts are embedded with their machine meaning (NaN, signed zeros
    and infinities included). *)

From Stdlib Require Import String.
From Stdlib Require Import ZArith List Bool Lia Permutation.
From Stdlib Require Import Uint63 Floats.
Import ListNotations.

Set Implicit Arguments.

(* A decimal literal such as 0.1 denotes the nearest binary64 value, as in Python. *)
Set Warnings "-inexact-float".

Local Open Scope float_scope.

(** ** Binary64 facts used by the scripts' comparisons *)

Module Float64.

(** The float an integer becomes when an operation mixes it with a float
    (exact below 2^53). *)
Definition of_int (z : Z) : float :=
  match z with
  | Z0 => 0
  | Zpos _ => of_uint63 (Uint63.of_Z z)
  | Zneg p => - of_uint63 (Uint63.of_Z (Zpos p))
  end.

(** A float that denotes a real number: neither NaN nor an infinity. *)
Definition is_real (x : float) : bool := is_finite x.

(** [x >= y] as Python evaluates it on floats. *)
Definition geb (x y : float) : bool := y <=? x.

(** [x > y] as Python evaluates it on floats. *)
Definition gtb (x y : float) : bool := y <? x.

(** The specification-level shape of a float that is not NaN. *)
Definition SFnot_nan (x : spec_float) : bool :=
  match x with S754_nan => false | _ => true end.

(** The specification-level shape of a float that is zero or finite. *)
Definition SFreal (x : spec_float) : bool :=
  match x with S754_zero _ | S754_finite _ _ _ => true | _ => false end.

End Float64.

(** ** Python results: a value, or a raised exception *)

Inductive exn : Type := ValueError | IndexError.

Inductive result (A : Type) : Type :=
| Ok (a : A)
| Raise (e : exn).

Arguments Ok {A} a.
Arguments Raise {A} e.

(** The integers [start, start + 1, ...], [n] of them. *)
Fixpoint count_from (start : Z) (n : nat) : list Z :=
  match n with
  | O => []
  | S k => start :: count_from (Z.succ start) k
  end.

(** ** The numpy routines the scripts call

    numpy is a library, not part of the repository; these definitions follow
    its documented behaviour on the arguments the scripts pass (one-dimensional
    float64 arrays as lists, two-dimensional ones as lists of rows). *)

Module Numpy.

Definition matrix : Type := list (list float).

(** The float64 value of a count. *)
Definition of_nat (n : nat) : float := Float64.of_int (Z.of_nat n).

(** [np.arange(0, num)] as float64. *)
Definition arange (num : nat) : list float := map Float64.of_int (count_from 0 num).

(** [y[-1] = v] on a non-empty array. *)
Definition set_last (y : list float) (v : float) : list float :=
  removelast y ++ [v].

(** [np.linspace(start, stop, num)] with the default [endpoint=True]:
    [arange(0, num) * step + start] with [step = (stop - start) / (num - 1)],
    the last sample overwritten by [stop]. *)
Definition linspace (start stop : float) (num : nat) : list float :=
  let div := (num - 1)%nat in
  let delta := stop - start in
  let y := arange num in
  let y :=
    if (0 <? div)%nat then
      let step := delta / of_nat div in
      if step =? 0 then map (fun v => v / of_nat div * delta) y
      else map (fun v => v * step) y
    else map (fun v => v * delta) y in
  let y := map (fun v => v + start) y in
  if (1 <? num)%nat then set_last y stop else y.

(** [np.flip] of a one-dimensional array. *)
Definition flip (l : list float) : list float := rev l.

(** [np.zeros([rows, cols])]. *)
Definition zeros (rows cols : nat) : matrix := repeat (repeat 0 cols) rows.

(** [l[i] = v] on a list, for an index in range. *)
Fixpoint list_set {A : Type} (i : nat) (v : A) (l : list A) : list A :=
  match l, i with
  | [], _ => []
  | _ :: t, O => v :: t
  | h :: t, S j => h :: list_set j v t
  end.

(** [m[r, c]]: [None] outside the array. *)
Definition getitem (m : matrix) (r c : nat) : option float :=
  match nth_error m r with
  | Some row => nth_error row c
  | None => None
  end.

(** [m[r, c] = v] with non-negative indices: numpy raises [IndexError]
    outside the array, here [None]. *)
Definition setitem (m : matrix) (r c : nat) (v : float) : option matrix :=
  match nth_error m r with
  | Some row =>
      if (c <? length row)%nat then Some (list_set r (list_set c v row) m)
      else None
  | None => None
  end.

(** The array is [rows] by [cols]. *)
Definition has_shape (rows cols : nat) (m : matrix) : Prop :=
  length m = rows /\ Forall (fun row => length row = cols) m.

(** [np.sum] of a one-dimensional array, added from the left. *)
Definition sum (l : list float) : float := fold_left add l 0.

(** [np.mean] of a one-dimensional array: the sum divided by the count. *)
Definition mean (l : list float) : float := sum l / of_nat (length l).

End Numpy.

(** ** [multiprocessing.Pool.map]

    The pool runs one job per element.  Which pending job completes next is
    the scheduler's choice, given here as a list of numbers (the k-th number,
    modulo the count of pending jobs, picks the job that completes k-th); the
    results are then handed back listed by job number, that is in the order
    of submission. *)

Module Pool.

(** The list without its k-th element. *)
Fixpoint remove_nth {X : Type} (k : nat) (l : list X) : list X :=
  match l, k with
  | [], _ => []
  | _ :: t, O => t
  | h :: t, S j => h :: remove_nth j t
  end.

Section Map.
Variables A B : Type.
Variable f : A -> B.

(** The results paired with their job numbers, in completion order. *)
Fixpoint complete (choices : list nat) (jobs : nat) (pending : list (Z * A))
  : list (Z * B) :=
  match jobs, pending with
  | S jobs', first :: _ =>
      let k := (hd O choices mod length pending)%nat in
      let job := nth k pending first in
      (fst job, f (snd job)) :: complete (tl choices) jobs' (remove_nth k pending)
  | _, _ => []
  end.

(** The result of job number [i] among the completed ones. *)
Definition result_of (done : list (Z * B)) (i : Z) : list B :=
  match find (fun r => Z.eqb (fst r) i) done with
  | Some r => [snd r]
  | None => []
  end.

(** [pool.map(f, xs)] under the scheduler's [choices]. *)
Definition pool_map (choices : list nat) (xs : list A) : list B :=
  let numbers := count_from 0 (length xs) in
  let pending := combine numbers xs in
  let done := complete choices (length xs) pending in
  flat_map (result_of done) numbers.

(** The results alone in the order the jobs complete, before the pool lists
    them by job number. *)
Definition completion_order (choices : list nat) (xs : list A) : list B :=
  let numbers := count_from 0 (length xs) in
  let pending := combine numbers xs in
  map snd (complete choices (length xs) pending).

End Map.
End Pool.

(** ** Python numbers and loops shared by the two scripts *)

Module Py.

(** [enumerate(l)]. *)
Definition enumerate {X : Type} (l : list X) : list (nat * X) :=
  combine (seq 0 (length l)) l.

(** [all(a > v for a in l)]. *)
Definition all_gt (l : list float) (v : float) : bool :=
  forallb (fun a => Float64.gtb a v) l.

(** [all(c <= v for c in l)]. *)
Definition all_le (l : list float) (v : float) : bool :=
  forallb (fun c => c <=? v) l.

(** [A + B] on two numpy arrays of one length. *)
Fixpoint array_add (A B : list float) : list float :=
  match A, B with
  | a :: A', b :: B' => (a + b) :: array_add A' B'
  | _, _ => []
  end.

End Py.

(** ** [2D_adaptive_region.py]: the sweep over initial conditions *)

Module AdaptiveRegion.

(** The state vector [L, A, B, X]. *)
Definition state : Type := (float * float * float * float)%type.

(** Amount of N available at location [L]. *)
Definition N (L S C : float) : float :=
  if S * L + C <? 0 then 0 else S * L + C.

(** Amount of F available at location [L]. *)
Definition F (L S C : float) : float :=
  if (- S) * L + C <? 0 then 0 else (- S) * L + C.

Section Script.

(** The C library's [pow], which [**] calls on floats. *)
Variable pow : float -> float -> float.

(** [scipy.integrate.odeint(func, y0, t)]: one row of the state per time of [t]. *)
Variable odeint : (state -> float -> state) -> state -> list float -> list state.

(** The module's [__name__]. *)
Variable name__ : string.

(** The scheduler's choices while the pool runs the jobs. *)
Variable choices : list nat.

Local Notation "x ** n" := (pow x (Float64.of_int n)) (at level 30, right associativity).

Definition ode_func (vec : state) (t : float) : state :=
  let alpha := Float64.of_int 1 in
  let gamma := 0.04 in
  let kd := 0.05 in
  let K1 := 4%Z in
  let n := 3%Z in
  let h := 20%Z in
  let K2 := 0.5 in
  let C := Float64.of_int 9 in
  let S := Float64.of_int 4 in
  let V := Float64.of_int 2 in
  let '(L, A, B, X) := vec in
  let dLdt := (X - 0.5) * V in
  let dAdt :=
    gamma * ((B ** n) / (Float64.of_int (K1 ^ n) + (B ** n))) * N L S C - kd * A in
  let dBdt :=
    gamma * ((A ** n) / (Float64.of_int (K1 ^ n) + (A ** n))) * F L S C - kd * B in
  let dXdt :=
    alpha * (K2 ** h / (((((A - B) / (A + B)) + 1) / Float64.of_int 2) ** h + K2 ** h))
    - X in
  (dLdt, dAdt, dBdt, dXdt).

(** The trajectory [odeint] returns from [(init_L, a, b, init_X)]. *)
Definition trajectory (a b : float) : list state :=
  let init_L := -10 in
  let init_X := 0.5 in
  let x0 := (init_L, a, b, init_X) in
  let t := Numpy.linspace 0 800 2000 in
  odeint ode_func x0 t.

(** The columns [x[:,1]] and [x[:,2]]. *)
Definition column_A (x : list state) : list float :=
  map (fun row : state => let '(_, A, _, _) := row in A) x.

Definition column_B (x : list state) : list float :=
  map (fun row : state => let '(_, _, B, _) := row in B) x.

Definition survival (a b : float) : float :=
  let dead := 1000 in
  let x := trajectory a b in
  let A := column_A x in
  let B := column_B x in
  let C := Py.array_add A B in
  if Py.all_gt A 0.1 && Py.all_gt B 0.1 && Py.all_le C 20 then 0
  else if negb (Py.all_le C 20) then 1
  else if negb (Py.all_gt A 0.1 && Py.all_gt B 0.1) then -1
  else dead.

Definition helper (z : float * float * nat * nat) : float * nat * nat :=
  let '(A, B, posit_A, posit_B) := z in
  let status := survival A B in
  (status, posit_A, posit_B).

(** The tuples the two nested loops append to [conds]. *)
Definition make_conds (init_A init_B : list float) : list (float * float * nat * nat) :=
  flat_map
    (fun pa : nat * float =>
       map (fun pb : nat * float => (snd pa, snd pb, fst pa, fst pb))
           (Py.enumerate init_B))
    (Py.enumerate init_A).

(** The loop over [outputs]: [adpt_matrix[position_b, position_a] = i[0]]. *)
Fixpoint scatter (adpt_matrix : Numpy.matrix) (outputs : list (float * nat * nat))
  : result Numpy.matrix :=
  match outputs with
  | [] => Ok adpt_matrix
  | i :: rest =>
      let position_a := snd (fst i) in
      let position_b := snd i in
      match Numpy.setitem adpt_matrix position_b position_a (fst (fst i)) with
      | Some m => scatter m rest
      | None => Raise IndexError
      end
  end.

(** The matrix cells the loop over [outputs] assigns, in order. *)
Definition writes (outputs : list (float * nat * nat)) : list (nat * nat) :=
  map (fun i : float * nat * nat => (snd i, snd (fst i))) outputs.

(** The run of the same loop with a record of its assignments: beside the
    matrix it keeps the cells [(position_b, position_a)] assigned so far,
    oldest first.  An assignment that raises is not recorded, and ends the
    loop. *)
Fixpoint scatter_log (adpt_matrix : Numpy.matrix) (written : list (nat * nat))
         (outputs : list (float * nat * nat))
  : result (Numpy.matrix * list (nat * nat)) :=
  match outputs with
  | [] => Ok (adpt_matrix, written)
  | i :: rest =>
      let position_a := snd (fst i) in
      let position_b := snd i in
      match Numpy.setitem adpt_matrix position_b position_a (fst (fst i)) with
      | Some m => scatter_log m (written ++ [(position_b, position_a)]) rest
      | None => Raise IndexError
      end
  end.

(** [adapt_matrix(resolution)]: [Ok None] is Python's [None], returned when
    the function falls off its end. *)
Definition adapt_matrix (resolution : Z) : result (option Numpy.matrix) :=
  if (resolution <? 0)%Z then Raise ValueError
  else
    let R := Z.to_nat resolution in
    let init_A := Numpy.linspace 0 20 R in
    let init_B := Numpy.linspace 0 20 R in
    let init_B := Numpy.flip init_B in
    let adpt_matrix := Numpy.zeros R R in
    let conds := make_conds init_A init_B in
    if (name__ =? "__main__")%string then
      let outputs := Pool.pool_map helper choices conds in
      match scatter adpt_matrix outputs with
      | Ok m => Ok (Some m)
      | Raise e => Raise e
      end
    else Ok None.

(** The list [outputs] of [adapt_matrix] at the resolution [R]: the job
    results the pool hands back. *)
Definition collected (R : nat) : list (float * nat * nat) :=
  let init_A := Numpy.linspace 0 20 R in
  let init_B := Numpy.flip (Numpy.linspace 0 20 R) in
  Pool.pool_map helper choices (make_conds init_A init_B).

(** The same job results in the order the pool completes them. *)
Definition completed (R : nat) : list (float * nat * nat) :=
  let init_A := Numpy.linspace 0 20 R in
  let init_B := Numpy.flip (Numpy.linspace 0 20 R) in
  Pool.completion_order helper choices (make_conds init_A init_B).

End Script.
End AdaptiveRegion.

(** ** [FixedCondSurvival.py]: the sweep over fixed environments *)

Module FixedCondSurvival.

(** The state vector [A, B]. *)
Definition state : Type := (float * float)%type.

Section Script.

Variable pow : float -> float -> float.

(** [scipy.integrate.odeint(func, y0, t, args=(N, F))], the extra arguments
    already passed to [func]. *)
Variable odeint : (state -> float -> state) -> state -> list float -> list state.

Variable name__ : string.

Variable choices : list nat.

Local Notation "x ** n" := (pow x (Float64.of_int n)) (at level 30, right associativity).

Definition ode_func (vec : state) (t : float) (N F : float) : state :=
  let N_conc := N in
  let F_conc := F in
  let gamma := 0.04 in
  let kd := 0.05 in
  let K1 := 4%Z in
  let n := 3%Z in
  let '(A, B) := vec in
  let dAdt :=
    gamma * ((B ** n) / (Float64.of_int (K1 ^ n) + (B ** n))) * N_conc - kd * A in
  let dBdt :=
    gamma * ((A ** n) / (Float64.of_int (K1 ^ n) + (A ** n))) * F_conc - kd * B in
  (dAdt, dBdt).

(** The trajectory [odeint] returns from [(a, b)] in the environment [(N, F)]. *)
Definition trajectory (N F a b : float) : list state :=
  let x0 := (a, b) in
  let t := Numpy.linspace 0 800 4000 in
  odeint (fun vec t => ode_func vec t N F) x0 t.

Definition AB_survival (N F a b : float) : float :=
  let survival := 0 in
  let x := trajectory N F a b in
  let A := map fst x in
  let B := map snd x in
  let C := Py.array_add A B in
  if Py.all_gt A 0.1 && Py.all_gt B 0.1 && Py.all_le C 20 then survival + 1
  else survival.

Definition helper (z : float * float * float * float) : float :=
  let '(N, F, A, B) := z in
  let survival := AB_survival N F A B in
  survival.

(** The tuples the two nested loops append to [conds]. *)
Definition make_conds (N F : float) (init_A init_B : list float)
  : list (float * float * float * float) :=
  flat_map (fun a => map (fun b => (N, F, a, b)) init_B) init_A.

Definition AB_assess (N F : float) : float :=
  let init_A := Numpy.linspace 0 20 50 in
  let init_B := Numpy.linspace 0 20 50 in
  let conds := make_conds N F init_A init_B in
  let survivability := 0 in
  if (name__ =? "__main__")%string then
    let outputs := Pool.pool_map helper choices conds in
    Numpy.mean outputs
  else survivability.

(** The two nested loops of [env_combs] over the pairs [(el_n, n)] and
    [(el_f, f)] they visit: [mapping[el_f, el_n] = AB_assess(n, f)]. *)
Fixpoint assign (mapping : Numpy.matrix) (visits : list ((nat * float) * (nat * float)))
  : result Numpy.matrix :=
  match visits with
  | [] => Ok mapping
  | (en, ef) :: rest =>
      match Numpy.setitem mapping (fst ef) (fst en) (AB_assess (snd en) (snd ef)) with
      | Some m => assign m rest
      | None => Raise IndexError
      end
  end.

(** [env_combs(resolution)]: [np.zeros] and [np.linspace] raise [ValueError]
    on a negative size. *)
Definition env_combs (resolution : Z) : result Numpy.matrix :=
  if (resolution <? 0)%Z then Raise ValueError
  else
    let R := Z.to_nat resolution in
    let mapping := Numpy.zeros R R in
    let N_array := Numpy.linspace 0 50 R in
    let F_array := Numpy.linspace 0 50 R in
    let F_array := Numpy.flip F_array in
    assign mapping
      (flat_map (fun en => map (fun ef => (en, ef)) (Py.enumerate F_array))
                (Py.enumerate N_array)).

End Script.
End FixedCondSurvival.

(** ** The conditions the outcome labels stand for

    One sampled time point is the pair of the two metabolites [(A, B)];
    [C = A + B] is their total. *)

Module Conditions.

(** The two metabolites of a row of the four-state trajectory. *)
Definition metabolites (row : AdaptiveRegion.state) : float * float :=
  let '(_, A, B, _) := row in (A, B).

(** [A > 0.1] and [B > 0.1] and [C <= 20]. *)
Definition viable (ab : float * float) : bool :=
  Float64.gtb (fst ab) 0.1 && Float64.gtb (snd ab) 0.1 && (fst ab + snd ab <=? 20).

(** [C] exceeds 20. *)
Definition bursts (ab : float * float) : bool :=
  Float64.gtb (fst ab + snd ab) 20.

(** [C <= 20]. *)
Definition bounded (ab : float * float) : bool :=
  fst ab + snd ab <=? 20.

(** [A] or [B] is 0.1 or below. *)
Definition starves (ab : float * float) : bool :=
  (fst ab <=? 0.1) || (snd ab <=? 0.1).

(** The cells [(row, col)] of a matrix with [ncols] columns and [nrows] rows,
    column by column: the order in which the sweep lists its jobs. *)
Definition cells (ncols nrows : nat) : list (nat * nat) :=
  flat_map (fun col => map (fun row => (row, col)) (seq 0 nrows)) (seq 0 ncols).

Definition cell_eq_dec (x y : nat * nat) : {x = y} + {x <> y}.
Proof. decide equality; apply Nat.eq_dec. Defined.

(** The number of scores equal to 1.0 in a list of trial scores. *)
Definition tally (scores : list float) : nat :=
  length (filter (fun s => s =? 1) scores).



End Conditions.

(** ** The reference equations of the four-state field

    Written from the specification, not from [ode_func]: the two supplies as
    the maximum of 0 and a linear expression in the location, the rate of the
    location, the Hill-type production of each metabolite times its supply
    minus decay, and the relaxation of the behavioural variable to a target
    set by the normalized difference of the metabolites.  The specification
    names the constants and fixes none of them: they are a parameter set. *)

Module Reference.

(** The parameter set of the vector field; the half-saturation [K1] and the
    two exponents are whole numbers. *)
Record parameters : Type := {
  alpha : float;
  gamma : float;
  kd : float;
  K1 : Z;
  n : Z;
  h : Z;
  K2 : float;
  slope : float;
  intercept : float;
  V : float
}.

(** [max(x, y)]: [y] when [x <= y], [x] otherwise. *)
Definition max (x y : float) : float := if x <=? y then y else x.

(** A supply that rises with the location, and one that falls with it. *)
Definition supplyRising (location slope intercept : float) : float :=
  max 0 (slope * location + intercept).

Definition supplyFalling (location slope intercept : float) : float :=
  max 0 (- (slope * location) + intercept).

Section Equations.

Variable pow : float -> float -> float.
Variable p : parameters.

Local Notation "x ^ k" := (pow x (Float64.of_int k)).

(** Saturating activation by the metabolite [x]: [x^n / (K1^n + x^n)]. *)
Definition hill (x : float) : float :=
  x ^ n p / (Float64.of_int (Z.pow (K1 p) (n p)) + x ^ n p).

(** The normalized difference [((A - B) / (A + B) + 1) / 2]. *)
Definition target (A B : float) : float := ((A - B) / (A + B) + 1) / 2.

Definition dL_dt (X : float) : float := (X - 0.5) * V p.

Definition dA_dt (L A B : float) : float :=
  gamma p * hill B * supplyRising L (slope p) (intercept p) - kd p * A.

Definition dB_dt (L A B : float) : float :=
  gamma p * hill A * supplyFalling L (slope p) (intercept p) - kd p * B.

Definition dX_dt (A B X : float) : float :=
  alpha p * (K2 p ^ h p / (target A B ^ h p + K2 p ^ h p)) - X.

(** The four derivatives at the state [(L, A, B, X)]. *)
Definition field (y : float * float * float * float)
  : float * float * float * float :=
  let '(L, A, B, X) := y in
  (dL_dt X, dA_dt L A B, dB_dt L A B, dX_dt A B X).

End Equations.
End Reference.

(** ** Stand-ins for the two library routines the scripts are run against

    [pow] and [odeint] are parameters of the scripts' embedding; these are
    concrete functions to run it on. *)

Module Samples.

(** [x ** y] for a small whole exponent [y >= 0], by repeated multiplication. *)
Fixpoint pow_loop (fuel : nat) (x y : float) : float :=
  match fuel with
  | O => 1
  | S k => if y <=? 0 then 1 else x * pow_loop k x (y - 1)
  end.

Definition pow (x y : float) : float := pow_loop 64 x y.

(** An integrator that reports the initial state at every requested time. *)
Definition hold {X : Type} (func : X -> float -> X) (y0 : X) (t : list float) : list X :=
  map (fun _ => y0) t.

(** One forward Euler step of length [h] on the four-state vector. *)
Definition euler_step (func : AdaptiveRegion.state -> float -> AdaptiveRegion.state)
           (y : AdaptiveRegion.state) (t h : float) : AdaptiveRegion.state :=
  let '(dL, dA, dB, dX) := func y t in
  let '(L, A, B, X) := y in
  (L + h * dL, A + h * dA, B + h * dB, X + h * dX).

Fixpoint euler_from (func : AdaptiveRegion.state -> float -> AdaptiveRegion.state)
         (y : AdaptiveRegion.state) (t_prev : float) (ts : list float)
  : list AdaptiveRegion.state :=
  match ts with
  | [] => []
  | t :: ts' =>
      let y' := euler_step func y t_prev (t - t_prev) in
      y' :: euler_from func y' t ts'
  end.

(** The forward Euler method, one step per interval of the time grid. *)
Definition euler (func : AdaptiveRegion.state -> float -> AdaptiveRegion.state)
           (y0 : AdaptiveRegion.state) (t : list float) : list AdaptiveRegion.state :=
  match t with
  | [] => []
  | t0 :: ts => y0 :: euler_from func y0 t0 ts
  end.

End Samples.

(** * Properties *)

(** ** Binary64 comparisons and NaN-freedom *)

Module Float64Facts.

Lemma SFcompare_antisym x y :
  SFcompare y x = option_map CompOpp (SFcompare x y).
Proof.
  destruct x as [sx|sx| |sx mx ex], y as [sy|sy| |sy my ey]; simpl; try reflexivity;
    try (destruct sx; reflexivity); try (destruct sy; reflexivity);
    try (destruct sx, sy; reflexivity).
  pose proof (Pos.compare_cont_antisym mx my Eq) as Hm. simpl in Hm.
  destruct sx, sy; simpl; try reflexivity;
    rewrite (Z.compare_antisym ex ey); destruct (ex ?= ey)%Z; simpl; try reflexivity;
    f_equal; first [ exact (eq_sym Hm) | now rewrite <- Hm ].
Qed.

Lemma ltb_leb_false x y : (x <? y) = true -> (y <=? x) = false.
Proof.
  rewrite ltb_spec, leb_spec. unfold SFltb, SFleb.
  rewrite (SFcompare_antisym (Prim2SF x) (Prim2SF y)).
  destruct (SFcompare (Prim2SF x) (Prim2SF y)) as [[]|]; simpl; congruence.
Qed.

Lemma leb_ltb_false x y : (x <=? y) = true -> (y <? x) = false.
Proof.
  rewrite ltb_spec, leb_spec. unfold SFltb, SFleb.
  rewrite (SFcompare_antisym (Prim2SF x) (Prim2SF y)).
  destruct (SFcompare (Prim2SF x) (Prim2SF y)) as [[]|]; simpl; congruence.
Qed.

Lemma SFcompare_not_nan x y :
  Float64.SFnot_nan x = true -> Float64.SFnot_nan y = true -> SFcompare x y <> None.
Proof.
  destruct x, y; simpl; congruence.
Qed.

Lemma ltb_false_leb x y :
  Float64.SFnot_nan (Prim2SF x) = true -> Float64.SFnot_nan (Prim2SF y) = true ->
  (x <? y) = false -> (y <=? x) = true.
Proof.
  intros Hx Hy. rewrite ltb_spec, leb_spec. unfold SFltb, SFleb.
  rewrite (SFcompare_antisym (Prim2SF x) (Prim2SF y)).
  pose proof (SFcompare_not_nan _ _ Hx Hy).
  destruct (SFcompare (Prim2SF x) (Prim2SF y)) as [[]|]; simpl; congruence.
Qed.

Lemma is_finite_SFreal x : is_finite x = true -> Float64.SFreal (Prim2SF x) = true.
Proof.
  unfold is_finite, Prim2SF. 
  destruct (is_nan x); simpl; [discriminate|].
  destruct (is_infinity x); simpl; [discriminate|]. intros _.
  destruct (is_zero x); simpl; [reflexivity|].
  destruct (Z.frexp x) as [r e].
  destruct (shr_fexp _ _ _ _ _) as [s e'].
  destruct (shr_m s); reflexivity.
Qed.

Section NoNaN.
Variables prec emax : Z.

Lemma shr_1_nonneg mrs : (0 <= shr_m mrs)%Z -> (0 <= shr_m (shr_1 mrs))%Z.
Proof.
  destruct mrs as [m r s]; simpl.
  destruct m as [|p|p]; simpl; try lia; destruct p; simpl; lia.
Qed.

Lemma iter_shr_1_nonneg p : forall mrs,
  (0 <= shr_m mrs)%Z -> (0 <= shr_m (iter_pos shr_1 p mrs))%Z.
Proof.
  induction p as [p IH|p IH|]; simpl; intros mrs H.
  - apply IH, IH, shr_1_nonneg, H.
  - apply IH, IH, H.
  - apply shr_1_nonneg, H.
Qed.

Lemma shr_record_of_loc_m m l : shr_m (shr_record_of_loc m l) = m.
Proof. destruct l as [|[]]; reflexivity. Qed.

Lemma shr_fexp_nonneg m e l :
  (0 <= m)%Z -> (0 <= shr_m (fst (shr_fexp prec emax m e l)))%Z.
Proof.
  intros H. unfold shr_fexp, shr.
  destruct (_ - e)%Z; simpl; rewrite ?shr_record_of_loc_m; trivial.
  apply iter_shr_1_nonneg. now rewrite shr_record_of_loc_m.
Qed.

Lemma round_nearest_even_nonneg m l :
  (0 <= m)%Z -> (0 <= round_nearest_even m l)%Z.
Proof.
  intros H. destruct l as [|[]]; simpl; try lia. destruct (Z.even m); lia.
Qed.

Lemma binary_round_aux_not_nan s m e l :
  (0 <= m)%Z -> Float64.SFnot_nan (binary_round_aux prec emax s m e l) = true.
Proof.
  intros H. unfold binary_round_aux.
  pose proof (shr_fexp_nonneg e l H) as H1.
  destruct (shr_fexp prec emax m e l) as [mrs' e']. simpl in H1.
  pose proof (shr_fexp_nonneg e' loc_Exact
                (round_nearest_even_nonneg (loc_of_shr_record mrs') H1)) as H2.
  destruct (shr_fexp prec emax _ e' loc_Exact) as [mrs'' e'']. simpl in H2.
  destruct (shr_m mrs''); try reflexivity; try lia.
  destruct (_ <=? _)%Z; reflexivity.
Qed.

Lemma binary_round_not_nan s m e :
  Float64.SFnot_nan (binary_round prec emax s m e) = true.
Proof.
  unfold binary_round. destruct (shl_align _ _ _) as [mz ez].
  apply binary_round_aux_not_nan. lia.
Qed.

Lemma binary_normalize_not_nan m e sz :
  Float64.SFnot_nan (binary_normalize prec emax m e sz) = true.
Proof.
  destruct m; simpl; trivial; apply binary_round_not_nan.
Qed.

Lemma SFmul_real_not_nan x y :
  Float64.SFreal x = true -> Float64.SFreal y = true -> Float64.SFnot_nan (SFmul prec emax x y) = true.
Proof.
  destruct x, y; simpl; try discriminate; trivial. intros _ _.
  apply binary_round_aux_not_nan. lia.
Qed.

Lemma SFadd_real_not_nan x y :
  Float64.SFnot_nan x = true -> Float64.SFreal y = true -> Float64.SFnot_nan (SFadd prec emax x y) = true.
Proof.
  destruct x as [sx|sx| |sx mx ex], y as [sy|sy| |sy my ey]; simpl; try discriminate; trivial.
  - destruct sx, sy; reflexivity.
  - intros _ _. apply binary_normalize_not_nan.
Qed.
End NoNaN.

Lemma SFopp_real x : Float64.SFreal (SFopp x) = Float64.SFreal x.
Proof. destruct x; reflexivity. Qed.

Lemma linear_not_nan s l c :
  is_finite s = true -> is_finite l = true -> is_finite c = true ->
  Float64.SFnot_nan (Prim2SF (s * l + c)) = true.
Proof.
  intros Hs Hl Hc. rewrite add_spec, mul_spec.
  apply SFadd_real_not_nan; [apply SFmul_real_not_nan|]; now apply is_finite_SFreal.
Qed.



End Float64Facts.

Module Float64More.
Import Float64Facts.

Lemma is_nan_spec (x : float) : is_nan x = true <-> Prim2SF x = S754_nan.
Proof.
  split.
  - intros H. unfold Prim2SF. now rewrite H.
  - intros H. unfold is_nan. rewrite eqb_spec, H. reflexivity.
Qed.

Lemma not_nan_spec (x : float) :
  is_nan x = false <-> Float64.SFnot_nan (Prim2SF x) = true.
Proof.
  pose proof (is_nan_spec x) as H. destruct (is_nan x), (Prim2SF x); simpl;
    split; intros E; try reflexivity; try discriminate;
    exfalso; destruct H as [H1 H2]; (discriminate (H1 eq_refl) || discriminate (H2 eq_refl)).
Qed.

(** A comparison that holds has no NaN on either side. *)
Lemma leb_true_not_nan (x y : float) :
  (x <=? y) = true -> is_nan x = false /\ is_nan y = false.
Proof.
  rewrite leb_spec, !not_nan_spec. unfold SFleb.
  destruct (Prim2SF x), (Prim2SF y); simpl; intros H; try discriminate; auto.
Qed.

(** A sum that is not NaN has no NaN operand. *)
Lemma add_not_nan (x y : float) :
  is_nan (x + y) = false -> is_nan x = false /\ is_nan y = false.
Proof.
  rewrite !not_nan_spec, add_spec. unfold SF64add.
  destruct (Prim2SF x), (Prim2SF y); simpl; intros H; try discriminate; auto.
Qed.



Lemma binary_round_aux_opp prec emax (s : bool) (m e : Z) (l : location) :
  SFopp (binary_round_aux prec emax s m e l) = binary_round_aux prec emax (negb s) m e l.
Proof.
  unfold binary_round_aux.
  destruct (shr_fexp prec emax m e l) as [mrs' e'].
  destruct (shr_fexp prec emax _ e' loc_Exact) as [mrs'' e''].
  destruct (shr_m mrs''); simpl; try reflexivity.
  destruct (_ <=? _)%Z; reflexivity.
Qed.

(** The product with the opposite is the opposite of the product, bit for
    bit: rounding is symmetric. *)
Lemma SFmul_opp_l prec emax (x y : spec_float) :
  SFmul prec emax (SFopp x) y = SFopp (SFmul prec emax x y).
Proof.
  destruct x as [sx|sx| |sx mx ex], y as [sy|sy| |sy my ey]; simpl; try reflexivity;
    try (destruct sx, sy; reflexivity).
  rewrite binary_round_aux_opp. now destruct sx, sy.
Qed.

Lemma mul_opp_l (x y : float) : (- x) * y = - (x * y).
Proof.
  apply Prim2SF_inj. rewrite opp_spec, !mul_spec, opp_spec. apply SFmul_opp_l.
Qed.

Lemma SFadd_comm prec emax (x y : spec_float) :
  SFadd prec emax x y = SFadd prec emax y x.
Proof.
  destruct x as [sx|sx| |sx mx ex], y as [sy|sy| |sy my ey]; simpl; try reflexivity;
    try (destruct sx, sy; reflexivity).
  now rewrite (Z.min_comm ex ey), Z.add_comm.
Qed.

Lemma add_comm (x y : float) : x + y = y + x.
Proof. apply Prim2SF_inj. rewrite !add_spec. apply SFadd_comm. Qed.

Lemma leb_false_ltb (x y : float) :
  is_nan x = false -> is_nan y = false -> (x <=? y) = false -> (y <? x) = true.
Proof.
  rewrite !not_nan_spec, ltb_spec, leb_spec. unfold SFltb, SFleb. intros Hx Hy.
  rewrite (SFcompare_antisym (Prim2SF x) (Prim2SF y)).
  pose proof (SFcompare_not_nan _ _ Hx Hy).
  destruct (SFcompare (Prim2SF x) (Prim2SF y)) as [[]|]; simpl; congruence.
Qed.

(** A finite factor other than 0 and a finite term keep a linear expression
    off NaN wherever its variable is not NaN, the infinities included. *)
Lemma SFmul_finite_not_nan prec emax sx mx ex (y : spec_float) :
  Float64.SFnot_nan y = true ->
  Float64.SFnot_nan (SFmul prec emax (S754_finite sx mx ex) y) = true.
Proof.
  destruct y as [sy|sy| |sy my ey]; simpl; try discriminate; trivial. intros _.
  apply binary_round_aux_not_nan. lia.
Qed.

Lemma linear_defined (s l c : float) :
  (exists sx mx ex, Prim2SF s = S754_finite sx mx ex) ->
  is_finite c = true -> is_nan l = false ->
  is_nan (s * l + c) = false.
Proof.
  intros [sx [mx [ex Hs]]] Hc Hl. rewrite not_nan_spec in *.
  rewrite add_spec, mul_spec, Hs.
  apply SFadd_real_not_nan; [now apply SFmul_finite_not_nan|now apply is_finite_SFreal].
Qed.

End Float64More.

(** ** The rectified supply functions *)

Module SupplyFacts.
Import AdaptiveRegion Float64Facts.

Lemma rectify_nonneg (v : float) :
  Float64.SFnot_nan (Prim2SF v) = true ->
  (0 <=? (if v <? 0 then 0 else v)) = true.
Proof.
  intros Hv. destruct (v <? 0) eqn:E.
  - reflexivity.
  - apply ltb_false_leb; auto.
Qed.

Lemma opp_is_finite (S : float) :
  is_finite S = true -> Float64.SFreal (Prim2SF (- S)) = true.
Proof.
  intros H. rewrite opp_spec, SFopp_real. now apply is_finite_SFreal.
Qed.

(** C5.  [N] returns [S*L + C] when that value is at least 0 and exactly 0 when
    it is negative, [F] does the same with [-S*L + C], and on inputs that are
    real numbers (finite floats) both results are at least 0. *)
Theorem supply_rectified (L S C : float) :
  ((0 <=? S * L + C) = true -> N L S C = S * L + C) /\
  ((S * L + C <? 0) = true -> N L S C = 0) /\
  ((0 <=? (- S) * L + C) = true -> F L S C = (- S) * L + C) /\
  (((- S) * L + C <? 0) = true -> F L S C = 0) /\
  (Float64.is_real L && Float64.is_real S && Float64.is_real C = true ->
   (0 <=? N L S C) = true /\ (0 <=? F L S C) = true).
Proof.
  unfold N, F, Float64.is_real. repeat split.
  - intros H. now rewrite (leb_ltb_false H).
  - intros H. now rewrite H.
  - intros H. now rewrite (leb_ltb_false H).
  - intros H. now rewrite H.
  - apply andb_prop in H as [H HC]. apply andb_prop in H as [HL HS].
    apply rectify_nonneg. rewrite add_spec, mul_spec.
    apply SFadd_real_not_nan; [apply SFmul_real_not_nan|]; now apply is_finite_SFreal.
  - apply andb_prop in H as [H HC]. apply andb_prop in H as [HL HS].
    apply rectify_nonneg. rewrite add_spec, mul_spec.
    apply SFadd_real_not_nan; [apply SFmul_real_not_nan|];
      auto using is_finite_SFreal, opp_is_finite.
Qed.

(** The two branches of C5 at sample inputs: a negative linear value is cut to
    0, a positive one is returned unchanged. *)
Example supply_samples :
  N (-10) 4 9 = 0 /\ N 1 4 9 = 13 /\ F (-10) 4 9 = 49 /\ F 10 4 9 = 0.
Proof. repeat split; reflexivity. Qed.

(** Outside the real numbers the cut is not a maximum: a NaN location gives a
    NaN supply, which is not at least 0. *)
Example supply_of_nan : (0 <=? N nan 4 9) = false /\ is_nan (N nan 4 9) = true.
Proof. split; reflexivity. Qed.

End SupplyFacts.

(** ** The three-way outcome rule *)

Module VerdictFacts.
Import Conditions Float64Facts.

(** Two float constants differ: the machine comparison tells them apart. *)
Ltac float_discriminate :=
  let H := fresh in
  intro H;
  match type of H with
  | _ = ?c => apply (f_equal (fun v => v =? c)) in H
  end;
  vm_compute in H; discriminate.

Section Rule.
Variable ab : list (float * float).

Lemma all_three_viable :
  Py.all_gt (map fst ab) 0.1 && Py.all_gt (map snd ab) 0.1
  && Py.all_le (Py.array_add (map fst ab) (map snd ab)) 20
  = forallb viable ab.
Proof.
  unfold Py.all_gt, Py.all_le. induction ab as [|[a b] l IH]; simpl; [reflexivity|].
  rewrite <- IH. unfold viable; simpl.
  destruct (Float64.gtb a 0.1), (Float64.gtb b 0.1), (a + b <=? 20); simpl;
    rewrite ?andb_false_r; reflexivity.
Qed.

Lemma all_le_bounded :
  Py.all_le (Py.array_add (map fst ab) (map snd ab)) 20 = forallb bounded ab.
Proof.
  unfold Py.all_le. induction ab as [|[a b] l IH]; simpl; [reflexivity|].
  now rewrite IH.
Qed.

Lemma bursts_not_bounded : existsb bursts ab = true -> forallb bounded ab = false.
Proof.
  induction ab as [|p l IH]; simpl; [discriminate|].
  intros H. apply orb_prop in H as [H|H].
  - unfold bursts, Float64.gtb in H. unfold bounded.
    now rewrite (ltb_leb_false H).
  - rewrite (IH H). apply andb_false_r.
Qed.

Lemma starves_not_viable : existsb starves ab = true -> forallb viable ab = false.
Proof.
  induction ab as [|p l IH]; simpl; [discriminate|].
  intros H. apply orb_prop in H as [H|H].
  - unfold starves in H. unfold viable, Float64.gtb.
    apply orb_prop in H as [H|H]; rewrite (leb_ltb_false H); simpl;
      rewrite ?andb_false_r; reflexivity.
  - rewrite (IH H). apply andb_false_r.
Qed.

End Rule.

End VerdictFacts.

(** ** [survival]: the label of one initial condition *)

Module SurvivalFacts.
Import AdaptiveRegion Conditions Float64Facts VerdictFacts.

Section Classifier.
Variable pow : float -> float -> float.
Variable odeint : (state -> float -> state) -> state -> list float -> list state.

Local Abbreviation trajectory := (AdaptiveRegion.trajectory pow odeint).
Local Abbreviation survival := (AdaptiveRegion.survival pow odeint).

Lemma column_A_metabolites (x : list state) : column_A x = map fst (map metabolites x).
Proof.
  unfold column_A. rewrite map_map. apply map_ext. now intros [[[L A] B] X].
Qed.

Lemma column_B_metabolites (x : list state) : column_B x = map snd (map metabolites x).
Proof.
  unfold column_B. rewrite map_map. apply map_ext. now intros [[[L A] B] X].
Qed.

(** The nested conditionals of [survival], read on the sampled pairs. *)
Lemma survival_rule (a b : float) :
  survival a b =
    let ab := map metabolites (trajectory a b) in
    if forallb viable ab then 0
    else if negb (forallb bounded ab) then 1
    else if negb (Py.all_gt (map fst ab) 0.1 && Py.all_gt (map snd ab) 0.1) then -1
    else 1000.
Proof.
  unfold AdaptiveRegion.survival. cbv zeta.
  rewrite column_A_metabolites, column_B_metabolites.
  now rewrite all_three_viable, all_le_bounded.
Qed.

(** The last [else] of the rule is never taken. *)
Lemma survival_cases (a b : float) :
  let ab := map metabolites (trajectory a b) in
  (forallb viable ab = true /\ survival a b = 0) \/
  (forallb viable ab = false /\ forallb bounded ab = false /\ survival a b = 1) \/
  (forallb viable ab = false /\ forallb bounded ab = true /\ survival a b = -1).
Proof.
  cbv zeta. rewrite survival_rule. cbv zeta.
  pose proof (all_three_viable (map metabolites (trajectory a b))) as Hv.
  rewrite all_le_bounded in Hv.
  destruct (forallb viable _); [now left|right].
  destruct (forallb bounded _); simpl; [right|now left].
  rewrite andb_true_r in Hv. rewrite Hv. now simpl.
Qed.

(** C1.  [survival] returns the survive label 0.0 exactly for the trajectories
    on which [A > 0.1], [B > 0.1] and [C = A + B <= 20] hold at every sampled
    time point. *)
Theorem survival_zero_iff_viable (a b : float) :
  survival a b = 0 <-> forallb viable (map metabolites (trajectory a b)) = true.
Proof.
  destruct (survival_cases a b) as [[Hv Hs]|[[Hv [_ Hs]]|[Hv [_ Hs]]]];
    rewrite Hs, Hv; split; intros H; try reflexivity; try discriminate;
    exfalso; revert H; float_discriminate.
Qed.

(** C2.  When [C = A + B] exceeds 20 at some sampled time point, [survival]
    returns the crisis label 1.0, whatever [A] and [B] do at the other points:
    the hypothesis says nothing about them. *)
Theorem survival_crisis_first (a b : float) :
  existsb bursts (map metabolites (trajectory a b)) = true -> survival a b = 1.
Proof.
  intros H. apply bursts_not_bounded in H.
  destruct (survival_cases a b) as [[Hv Hs]|[[Hv [Hb Hs]]|[Hv [Hb Hs]]]]; trivial.
  - rewrite <- all_three_viable, all_le_bounded, H, andb_false_r in Hv. discriminate.
  - congruence.
Qed.

(** The starvation rule on runs without a NaN total: when [C = A + B <= 20]
    holds at every sampled time point and [A] or [B] is 0.1 or below at some
    sampled time point, [survival] returns the starvation label -1.0. *)
Theorem survival_starvation (a b : float) :
  forallb bounded (map metabolites (trajectory a b)) = true ->
  existsb starves (map metabolites (trajectory a b)) = true ->
  survival a b = -1.
Proof.
  intros Hb Hs. apply starves_not_viable in Hs.
  destruct (survival_cases a b) as [[Hv _]|[[_ [Hb' _]]|[_ [_ H]]]]; congruence.
Qed.

(** C10.  [survival] returns 0.0, 1.0 or -1.0, never its initial 1000.0. *)
Theorem survival_label (a b : float) :
  (survival a b = 0 \/ survival a b = 1 \/ survival a b = -1) /\ survival a b <> 1000.
Proof.
  destruct (survival_cases a b) as [[_ Hs]|[[_ [_ Hs]]|[_ [_ Hs]]]]; rewrite Hs;
    (split; [auto|float_discriminate]).
Qed.

End Classifier.
End SurvivalFacts.

(** ** The outcome rule on sample runs *)

Module SurvivalRuns.
Import AdaptiveRegion Conditions.

(** The pairs [(A, B)] sampled along a run. *)
Local Abbreviation sampled odeint a b :=
  (map metabolites (trajectory Samples.pow odeint a b)).

(** A run on which the total exceeds 20 and [A] is below 0.1 as well is labelled
    as a crisis. *)
Lemma survival_crisis_first_witness :
  existsb bursts (sampled Samples.hold 0.05 25) = true /\
  existsb starves (sampled Samples.hold 0.05 25) = true /\
  survival Samples.pow Samples.hold 0.05 25 = 1.
Proof.
  split; [vm_compute; reflexivity|].
  split; [vm_compute; reflexivity|].
  apply SurvivalFacts.survival_crisis_first. vm_compute; reflexivity.
Defined.

(** A run that stays within the bound with [A] below 0.1 is labelled as
    starvation. *)
Lemma survival_starvation_witness :
  forallb bounded (sampled Samples.hold 0.05 5) = true /\
  existsb starves (sampled Samples.hold 0.05 5) = true /\
  survival Samples.pow Samples.hold 0.05 5 = -1.
Proof.
  split; [vm_compute; reflexivity|].
  split; [vm_compute; reflexivity|].
  apply SurvivalFacts.survival_starvation; vm_compute; reflexivity.
Defined.

(** C3.  [survival] departs from the starvation rule at [A0 = B0 = 0], a
    corner of the grid of every sweep.  There the behavioural equation divides
    0 by 0; under forward Euler the NaN reaches [A] and [B] at the fourth
    sample.  The total of that run never exceeds 20 (a NaN exceeds nothing) and
    [A] is below 0.1 from the start, so the rule, and the comment before
    [survival], give the starvation label -1.0; the function returns 1.0, the
    label of an osmotic crisis, because it asks whether every [C <= 20], which
    a NaN total fails. *)
Lemma survival_starvation_fails_on_nan :
  forallb (fun ab => negb (bursts ab)) (sampled Samples.euler 0 0) = true /\
  existsb starves (sampled Samples.euler 0 0) = true /\
  survival Samples.pow Samples.euler 0 0 = 1 /\
  survival Samples.pow Samples.euler 0 0 <> -1.
Proof.
  split; [vm_compute; reflexivity|].
  split; [vm_compute; reflexivity|].
  assert (E : survival Samples.pow Samples.euler 0 0 = 1) by (vm_compute; reflexivity).
  split; [exact E|]. rewrite E. VerdictFacts.float_discriminate.
Qed.

(** The first rows of that run. *)
Example euler_run_from_origin :
  firstn 4 (sampled Samples.euler 0 0) = [(0, 0); (0, 0); (0, 0); (nan, nan)].
Proof. vm_compute. reflexivity. Qed.

End SurvivalRuns.

(** ** Counting and the process pool *)

Module CountFacts.

Lemma length_count_from n : forall s, length (count_from s n) = n.
Proof. induction n as [|n IH]; intros s; simpl; [reflexivity|]. now rewrite IH. Qed.

Lemma in_count_from n : forall s z,
  In z (count_from s n) <-> (s <= z < s + Z.of_nat n)%Z.
Proof.
  induction n as [|n IH]; intros s z; simpl.
  - lia.
  - rewrite IH. lia.
Qed.

Lemma NoDup_count_from n : forall s, NoDup (count_from s n).
Proof.
  induction n as [|n IH]; intros s; simpl; constructor.
  - rewrite in_count_from. lia.
  - apply IH.
Qed.

Lemma nth_count_from n : forall s i d,
  (i < n)%nat -> nth i (count_from s n) d = (s + Z.of_nat i)%Z.
Proof.
  induction n as [|n IH]; intros s i d Hi; [lia|].
  destruct i as [|i]; simpl; [lia|]. rewrite IH by lia. lia.
Qed.

End CountFacts.

Module PoolFacts.
Import Pool CountFacts.

Lemma remove_nth_length (X : Type) (l : list X) : forall k,
  (k < length l)%nat -> length (remove_nth k l) = Nat.pred (length l).
Proof.
  induction l as [|h t IH]; simpl; intros k Hk; [lia|].
  destruct k as [|j]; simpl; [reflexivity|].
  rewrite IH by lia. destruct t; simpl in *; lia.
Qed.

Lemma remove_nth_perm (X : Type) (d : X) (l : list X) : forall k,
  (k < length l)%nat -> Permutation l (nth k l d :: remove_nth k l).
Proof.
  induction l as [|h t IH]; simpl; intros k Hk; [lia|].
  destruct k as [|j]; simpl; [reflexivity|].
  rewrite perm_swap. apply perm_skip, IH. lia.
Qed.

Section Map.
Variables A B : Type.
Variable f : A -> B.

Local Abbreviation run := (fun j : Z * A => (fst j, f (snd j))).

Lemma complete_perm : forall jobs choices pending,
  (length pending <= jobs)%nat ->
  Permutation (complete f choices jobs pending) (map run pending).
Proof.
  induction jobs as [|jobs IH]; intros choices pending Hlen.
  - destruct pending; simpl in *; [constructor|lia].
  - destruct pending as [|first rest]; [constructor|].
    cbn [complete].
    set (k := (hd O choices mod length (first :: rest))%nat).
    assert (Hk : (k < length (first :: rest))%nat)
      by (apply Nat.mod_upper_bound; simpl; lia).
    apply Permutation_sym.
    eapply Permutation_trans;
      [apply Permutation_map, (remove_nth_perm first (first :: rest) Hk)|].
    cbn [map]. apply perm_skip, Permutation_sym, IH.
    rewrite remove_nth_length by exact Hk. simpl in *. lia.
Qed.

Lemma find_by_key (done : list (Z * B)) (i : Z) (v : B) :
  NoDup (map fst done) -> In (i, v) done ->
  find (fun r => Z.eqb (fst r) i) done = Some (i, v).
Proof.
  induction done as [|[j w] l IH]; simpl; intros Hnd Hin; [contradiction|].
  inversion Hnd as [|? ? Hj Hl]; subst.
  destruct Hin as [E|Hin].
  - inversion E; subst. now rewrite Z.eqb_refl.
  - destruct (Z.eqb j i) eqn:E.
    + apply Z.eqb_eq in E; subst. exfalso. apply Hj.
      change i with (fst (i, v)). now apply in_map.
    + now apply IH.
Qed.

Lemma flat_map_by_number (g : Z -> list B) (xs : list A) : forall s,
  (forall i x, nth_error xs i = Some x -> g (s + Z.of_nat i)%Z = [f x]) ->
  flat_map g (count_from s (length xs)) = map f xs.
Proof.
  induction xs as [|x t IH]; intros s H; simpl; [reflexivity|].
  rewrite (IH (Z.succ s)).
  - specialize (H O x eq_refl). rewrite Z.add_0_r in H. now rewrite H.
  - intros i y Hy. replace (Z.succ s + Z.of_nat i)%Z with (s + Z.of_nat (S i))%Z by lia.
    now apply H.
Qed.

Lemma in_combine_count (xs : list A) : forall s i x,
  nth_error xs i = Some x ->
  In ((s + Z.of_nat i)%Z, x) (combine (count_from s (length xs)) xs).
Proof.
  induction xs as [|h t IH]; intros s i x H; destruct i; simpl in *; try discriminate.
  - left. inversion H. now rewrite Z.add_0_r.
  - right. replace (s + Z.pos (Pos.of_succ_nat i))%Z with (Z.succ s + Z.of_nat i)%Z by lia.
    now apply IH.
Qed.

Lemma map_fst_combine_count (xs : list A) : forall s,
  map fst (combine (count_from s (length xs)) xs) = count_from s (length xs).
Proof.
  induction xs as [|h t IH]; intros s; simpl; [reflexivity|]. now rewrite IH.
Qed.

(** Whatever the scheduler chooses, the pool hands back [f] of each element,
    in the order of the elements. *)
Lemma pool_map_eq_map (choices : list nat) (xs : list A) :
  pool_map f choices xs = map f xs.
Proof.
  unfold pool_map. cbv zeta.
  set (pending := combine (count_from 0 (length xs)) xs).
  assert (Hlen : (length pending <= length xs)%nat).
  { unfold pending. rewrite length_combine, length_count_from. lia. }
  pose proof (complete_perm choices pending Hlen) as Hperm.
  apply (flat_map_by_number _ xs 0).
  intros i x Hx. unfold result_of. simpl.
  assert (Hnd : NoDup (map fst (complete f choices (length xs) pending))).
  { apply (@Permutation_NoDup _ (map fst (map run pending))).
    - apply Permutation_map. now apply Permutation_sym.
    - rewrite map_map. simpl. unfold pending.
      rewrite (map_ext _ fst) by reflexivity.
      rewrite map_fst_combine_count. apply NoDup_count_from. }
  assert (Hin : In (Z.of_nat i, f x) (complete f choices (length xs) pending)).
  { apply (@Permutation_in _ (map run pending)); [now apply Permutation_sym|].
    change (Z.of_nat i, f x) with (run (Z.of_nat i, x)). apply in_map.
    apply (in_combine_count xs 0 i Hx). }
  now rewrite (@find_by_key _ (Z.of_nat i) (f x) Hnd Hin).
Qed.

Lemma map_snd_combine_count (xs : list A) : forall s,
  map snd (combine (count_from s (length xs)) xs) = xs.
Proof.
  induction xs as [|h t IH]; intros s; simpl; [reflexivity|]. now rewrite IH.
Qed.

(** The order of completion is an order of the results the pool hands back. *)
Lemma completion_order_perm (choices : list nat) (xs : list A) :
  Permutation (completion_order f choices xs) (pool_map f choices xs).
Proof.
  rewrite pool_map_eq_map. unfold completion_order. cbv zeta.
  set (pending := combine (count_from 0 (length xs)) xs).
  assert (Hlen : (length pending <= length xs)%nat).
  { unfold pending. rewrite length_combine, length_count_from. lia. }
  eapply Permutation_trans;
    [apply Permutation_map, (complete_perm choices pending Hlen)|].
  rewrite map_map. simpl.
  rewrite <- (map_map snd f). unfold pending.
  now rewrite map_snd_combine_count.
Qed.

End Map.
End PoolFacts.

(** ** Arrays *)

Module NumpyFacts.
Import Numpy CountFacts.

Lemma length_arange n : length (arange n) = n.
Proof. unfold arange. now rewrite length_map, length_count_from. Qed.

Lemma length_set_last y v : y <> [] -> length (set_last y v) = length y.
Proof.
  intros H. unfold set_last. rewrite length_app. simpl.
  destruct y as [|a y]; [contradiction|].
  rewrite (app_removelast_last a (l:=a :: y)) at 2 by discriminate.
  rewrite length_app. reflexivity.
Qed.

Lemma length_linspace start stop num : length (linspace start stop num) = num.
Proof.
  unfold linspace. cbv zeta.
  set (y := map (fun v => v + start) _).
  assert (Hy : length y = num).
  { unfold y. rewrite length_map.
    destruct (0 <? num - 1)%nat; [destruct (_ =? 0)|];
      now rewrite length_map, length_arange. }
  destruct (1 <? num)%nat eqn:E; [|exact Hy].
  rewrite length_set_last; [exact Hy|].
  apply Nat.ltb_lt in E. intros H. rewrite H in Hy. simpl in Hy. lia.
Qed.

(** With two samples or more the last one is [stop] itself. *)
Lemma last_linspace start stop num d :
  (1 < num)%nat -> nth (num - 1) (linspace start stop num) d = stop.
Proof.
  intros H. pose proof (length_linspace start stop num) as Hlen. revert Hlen.
  unfold linspace. cbv zeta.
  apply Nat.ltb_lt in H. rewrite H. apply Nat.ltb_lt in H.
  set (y := map _ _). unfold set_last. rewrite length_app. simpl. intros Hlen.
  rewrite app_nth2 by lia.
  replace (num - 1 - length (removelast y))%nat with O by lia. reflexivity.
Qed.

Lemma nth_flip (l : list float) (i : nat) d :
  (i < length l)%nat -> nth i (flip l) d = nth (length l - 1 - i) l d.
Proof.
  intros H. unfold flip. rewrite rev_nth by exact H. f_equal. lia.
Qed.

Lemma length_flip (l : list float) : length (flip l) = length l.
Proof. apply length_rev. Qed.

Section ListSet.
Variable X : Type.

Lemma length_list_set (l : list X) : forall i v, length (list_set i v l) = length l.
Proof.
  induction l as [|h t IH]; intros [|i] v; simpl; auto.
Qed.

Lemma nth_error_list_set_same (l : list X) : forall i v,
  (i < length l)%nat -> nth_error (list_set i v l) i = Some v.
Proof.
  induction l as [|h t IH]; intros [|i] v H; simpl in *; try lia; auto.
  apply IH. lia.
Qed.

Lemma nth_error_list_set_other (l : list X) : forall i j v,
  i <> j -> nth_error (list_set i v l) j = nth_error l j.
Proof.
  induction l as [|h t IH]; intros [|i] [|j] v H; simpl; auto; try congruence.
Qed.

End ListSet.

Lemma zeros_shape rows cols : has_shape rows cols (zeros rows cols).
Proof.
  unfold has_shape, zeros. split; [apply repeat_length|].
  apply Forall_forall. intros row H. apply repeat_spec in H. subst.
  apply repeat_length.
Qed.

Section Items.
Variables rows cols : nat.

Lemma shape_row (m : matrix) (r : nat) (row : list float) :
  has_shape rows cols m -> nth_error m r = Some row ->
  (r < rows)%nat /\ length row = cols.
Proof.
  intros [Hl Hf] H. split.
  - rewrite <- Hl. apply nth_error_Some. congruence.
  - apply nth_error_In in H. rewrite Forall_forall in Hf. now apply Hf.
Qed.

Lemma setitem_in_range (m : matrix) (r c : nat) (v : float) :
  has_shape rows cols m -> (r < rows)%nat -> (c < cols)%nat ->
  exists m', setitem m r c v = Some m'.
Proof.
  intros Hs Hr Hc. unfold setitem.
  destruct (nth_error m r) as [row|] eqn:E.
  - destruct (shape_row _ Hs E) as [_ Hrow].
    assert (Hlt : (c <? length row)%nat = true) by (apply Nat.ltb_lt; lia).
    rewrite Hlt. eauto.
  - apply nth_error_None in E. destruct Hs. lia.
Qed.

Lemma setitem_shape (m m' : matrix) (r c : nat) (v : float) :
  has_shape rows cols m -> setitem m r c v = Some m' -> has_shape rows cols m'.
Proof.
  intros Hs. unfold setitem.
  destruct (nth_error m r) as [row|] eqn:E; [|discriminate].
  destruct (c <? length row)%nat; [|discriminate].
  intros H. inversion H; subst. clear H.
  destruct (shape_row _ Hs E) as [Hr Hrow]. destruct Hs as [Hl Hf].
  split; [now rewrite length_list_set|].
  apply Forall_forall. intros x Hx.
  apply In_nth_error in Hx as [k Hk].
  destruct (Nat.eq_dec r k) as [->|Hne].
  - rewrite nth_error_list_set_same in Hk by lia. inversion Hk.
    now rewrite length_list_set.
  - rewrite nth_error_list_set_other in Hk by exact Hne.
    apply nth_error_In in Hk. rewrite Forall_forall in Hf. now apply Hf.
Qed.

Lemma getitem_setitem_same (m m' : matrix) (r c : nat) (v : float) :
  setitem m r c v = Some m' -> getitem m' r c = Some v.
Proof.
  unfold setitem, getitem.
  destruct (nth_error m r) as [row|] eqn:E; [|discriminate].
  destruct (c <? length row)%nat eqn:Hc; [|discriminate].
  intros H. inversion H; subst. clear H.
  assert (Hr : (r < length m)%nat) by (apply nth_error_Some; congruence).
  rewrite nth_error_list_set_same by exact Hr.
  apply nth_error_list_set_same. now apply Nat.ltb_lt.
Qed.

Lemma getitem_setitem_other (m m' : matrix) (r c r' c' : nat) (v : float) :
  setitem m r c v = Some m' -> (r', c') <> (r, c) ->
  getitem m' r' c' = getitem m r' c'.
Proof.
  unfold setitem, getitem.
  destruct (nth_error m r) as [row|] eqn:E; [|discriminate].
  destruct (c <? length row)%nat eqn:Hc; [|discriminate].
  intros H Hne. inversion H; subst. clear H.
  destruct (Nat.eq_dec r r') as [->|Hr].
  - assert (Hlt : (r' < length m)%nat) by (apply nth_error_Some; congruence).
    rewrite nth_error_list_set_same by exact Hlt. rewrite E.
    apply nth_error_list_set_other. congruence.
  - now rewrite nth_error_list_set_other by exact Hr.
Qed.

(** Two arrays of one shape with the same items are the same array. *)
Lemma matrix_ext (m1 m2 : matrix) :
  has_shape rows cols m1 -> has_shape rows cols m2 ->
  (forall r c, (r < rows)%nat -> (c < cols)%nat -> getitem m1 r c = getitem m2 r c) ->
  m1 = m2.
Proof.
  intros Hs1 Hs2 H. apply nth_error_ext. intros r.
  destruct (nth_error m1 r) as [row1|] eqn:E1.
  - destruct (shape_row _ Hs1 E1) as [Hr Hl1].
    destruct (nth_error m2 r) as [row2|] eqn:E2.
    + destruct (shape_row _ Hs2 E2) as [_ Hl2]. f_equal.
      apply nth_error_ext. intros c.
      destruct (Nat.lt_ge_cases c cols) as [Hc|Hc].
      * specialize (H r c Hr Hc). unfold getitem in H. now rewrite E1, E2 in H.
      * assert (N1 : nth_error row1 c = None) by (apply nth_error_None; lia).
        assert (N2 : nth_error row2 c = None) by (apply nth_error_None; lia).
        now rewrite N1, N2.
    + apply nth_error_None in E2. destruct Hs2. lia.
  - apply nth_error_None in E1. symmetry. apply nth_error_None.
    destruct Hs1, Hs2. lia.
Qed.

End Items.
End NumpyFacts.

(** ** The job list and the scatter loop *)

Module LoopFacts.
Import Py Conditions.

Lemma map_over_flat_map (X Y Z : Type) (g : Y -> Z) (f : X -> list Y) (l : list X) :
  map g (flat_map f l) = flat_map (fun x => map g (f x)) l.
Proof.
  induction l as [|x l IH]; simpl; [reflexivity|]. now rewrite map_app, IH.
Qed.

Lemma flat_map_over_map (X Y Z : Type) (f : Y -> list Z) (g : X -> Y) (l : list X) :
  flat_map f (map g l) = flat_map (fun x => f (g x)) l.
Proof.
  induction l as [|x l IH]; simpl; [reflexivity|]. now rewrite IH.
Qed.

Lemma in_combine_seq (X : Type) (l : list X) : forall s i x,
  In (i, x) (combine (seq s (length l)) l) <->
  (s <= i)%nat /\ nth_error l (i - s) = Some x.
Proof.
  induction l as [|h t IH]; intros s i x; simpl.
  - split; [contradiction|]. intros [_ H]. destruct (i - s)%nat; discriminate.
  - rewrite IH. split.
    + intros [E|[Hle H]].
      * inversion E; subst. split; [lia|]. now rewrite Nat.sub_diag.
      * split; [lia|]. replace (i - s)%nat with (S (i - S s)) by lia. exact H.
    + intros [Hle H]. destruct (i - s)%nat as [|k] eqn:E.
      * left. inversion H. f_equal. lia.
      * right. split; [lia|]. replace (i - S s)%nat with k by lia. exact H.
Qed.

Lemma in_enumerate (X : Type) (l : list X) (i : nat) (x : X) :
  In (i, x) (enumerate l) <-> nth_error l i = Some x.
Proof.
  unfold enumerate. rewrite in_combine_seq, Nat.sub_0_r. intuition lia.
Qed.

Lemma map_fst_enumerate (X : Type) (l : list X) :
  map fst (enumerate l) = seq 0 (length l).
Proof.
  unfold enumerate. generalize 0%nat.
  induction l as [|h t IH]; intros s; simpl; [reflexivity|]. now rewrite IH.
Qed.

Lemma in_cells (ncols nrows r c : nat) :
  In (r, c) (cells ncols nrows) <-> (r < nrows)%nat /\ (c < ncols)%nat.
Proof.
  unfold cells. rewrite in_flat_map. split.
  - intros [col [Hc Hr]]. apply in_map_iff in Hr as [row [E Hr]].
    inversion E; subst. apply in_seq in Hc, Hr. lia.
  - intros [Hr Hc]. exists c. split; [apply in_seq; lia|].
    apply in_map_iff. exists r. split; [reflexivity|apply in_seq; lia].
Qed.

Lemma NoDup_columns (nrows : nat) (cols : list nat) :
  NoDup cols ->
  NoDup (flat_map (fun col => map (fun row => (row, col)) (seq 0 nrows)) cols).
Proof.
  induction cols as [|c cols IH]; simpl; intros H; [constructor|].
  inversion H as [|? ? Hc Hcols]; subst.
  apply NoDup_app.
  - apply Finite.Injective_map_NoDup; [|apply seq_NoDup].
    intros x y E. now inversion E.
  - now apply IH.
  - intros [r c'] Hin Hin'. apply in_map_iff in Hin as [row [E _]].
    inversion E; subst. apply in_flat_map in Hin' as [col [Hcol Hr]].
    apply in_map_iff in Hr as [row' [E' _]]. inversion E'; subst. contradiction.
Qed.

Lemma NoDup_cells (ncols nrows : nat) : NoDup (cells ncols nrows).
Proof. apply NoDup_columns, seq_NoDup. Qed.

Lemma length_cells (ncols nrows : nat) :
  length (cells ncols nrows) = (ncols * nrows)%nat.
Proof.
  unfold cells.
  assert (H : forall cols : list nat,
             length (flat_map (fun col => map (fun row => (row, col)) (seq 0 nrows)) cols)
             = (length cols * nrows)%nat).
  { induction cols as [|c cols IH]; simpl; [reflexivity|].
    now rewrite length_app, length_map, length_seq, IH. }
  now rewrite H, length_seq.
Qed.

Lemma count_occ_cells (ncols nrows r c : nat) :
  (r < nrows)%nat -> (c < ncols)%nat ->
  count_occ cell_eq_dec (cells ncols nrows) (r, c) = 1%nat.
Proof.
  intros Hr Hc. apply NoDup_count_occ'; [apply NoDup_cells|].
  now apply in_cells.
Qed.

End LoopFacts.

Module SweepFacts.
Import Numpy NumpyFacts Py Conditions LoopFacts AdaptiveRegion.

Section Scatter.
Variables rows cols : nat.

(** A job result addressed inside the matrix. *)
Local Abbreviation in_range :=
  (fun i : float * nat * nat => (snd i < rows)%nat /\ (snd (fst i) < cols)%nat).

Lemma scatter_spec : forall outputs m,
  has_shape rows cols m -> Forall in_range outputs -> NoDup (writes outputs) ->
  exists m',
    scatter m outputs = Ok m' /\ has_shape rows cols m' /\
    (forall i, In i outputs -> getitem m' (snd i) (snd (fst i)) = Some (fst (fst i))) /\
    (forall r c, ~ In (r, c) (writes outputs) -> getitem m' r c = getitem m r c).
Proof.
  induction outputs as [|i rest IH]; intros m Hs Hr Hnd.
  - exists m. simpl.
    split; [reflexivity|]. split; [exact Hs|]. split; [intros i []|reflexivity].
  - inversion Hr as [|? ? [Hrow Hcol] Hrest]; subst.
    simpl in Hnd. inversion Hnd as [|? ? Hfresh Hnd']; subst.
    assert (Hex : exists m1, setitem m (snd i) (snd (fst i)) (fst (fst i)) = Some m1)
      by (eapply setitem_in_range; eauto).
    destruct Hex as [m1 Hset].
    assert (Hs1 : has_shape rows cols m1) by (eapply setitem_shape; eauto).
    destruct (IH m1 Hs1 Hrest Hnd') as [m' [Hrun [Hs' [Hin Hout]]]].
    exists m'. cbn [scatter]. rewrite Hset.
    split; [exact Hrun|]. split; [exact Hs'|]. split.
    + intros j [<-|Hj]; [|now apply Hin].
      rewrite (Hout _ _ Hfresh). eapply getitem_setitem_same; eauto.
    + intros r c Hnot. rewrite Hout.
      * eapply getitem_setitem_other; eauto. intros E. apply Hnot.
        left. now inversion E.
      * intros H. apply Hnot. now right.
Qed.

(** The loop gives one matrix whatever order the job results come in. *)
Lemma scatter_permutation (outputs outputs' : list (float * nat * nat)) (m : matrix) :
  has_shape rows cols m -> Forall in_range outputs -> NoDup (writes outputs) ->
  Permutation outputs' outputs ->
  scatter m outputs' = scatter m outputs.
Proof.
  intros Hs Hr Hnd Hp.
  assert (Hr' : Forall in_range outputs').
  { apply Forall_forall. intros i Hi. rewrite Forall_forall in Hr.
    apply Hr. eapply Permutation_in; eauto. }
  assert (Hw : Permutation (writes outputs') (writes outputs))
    by (unfold writes; now apply Permutation_map).
  assert (Hnd' : NoDup (writes outputs'))
    by (eapply Permutation_NoDup; [apply Permutation_sym; exact Hw|exact Hnd]).
  destruct (scatter_spec Hs Hr Hnd) as [m1 [Hrun1 [Hs1 [Hin1 Hout1]]]].
  destruct (scatter_spec Hs Hr' Hnd') as [m2 [Hrun2 [Hs2 [Hin2 Hout2]]]].
  rewrite Hrun1, Hrun2. f_equal.
  apply (matrix_ext Hs2 Hs1). intros r c _ _.
  destruct (in_dec cell_eq_dec (r, c) (writes outputs)) as [Hin|Hnot].
  - unfold writes in Hin. apply in_map_iff in Hin as [i [E Hi]].
    inversion E; subst r c.
    rewrite (Hin1 i Hi). apply Hin2.
    eapply Permutation_in; [apply Permutation_sym; exact Hp|exact Hi].
  - rewrite (Hout1 _ _ Hnot). apply Hout2.
    intros H. apply Hnot. eapply Permutation_in; eauto.
Qed.

End Scatter.

(** The run with the record leaves the matrix of the loop, and its record
    lists the cells of the job results it went through. *)
Lemma scatter_log_scatter : forall outputs m written,
  scatter m outputs =
  match scatter_log m written outputs with
  | Ok run => Ok (fst run)
  | Raise e => Raise e
  end.
Proof.
  induction outputs as [|i rest IH]; intros m written; simpl; [reflexivity|].
  destruct (setitem _ _ _ _); [apply IH|reflexivity].
Qed.

Lemma scatter_log_written : forall outputs m written m' written',
  scatter_log m written outputs = Ok (m', written') ->
  written' = written ++ writes outputs.
Proof.
  induction outputs as [|i rest IH]; intros m written m' written' H; simpl in H.
  - inversion H. now rewrite app_nil_r.
  - destruct (setitem _ _ _ _); [|discriminate].
    apply IH in H. rewrite H, <- app_assoc. reflexivity.
Qed.

Lemma scatter_log_of_scatter (outputs : list (float * nat * nat)) (m m' : matrix) :
  scatter m outputs = Ok m' -> scatter_log m [] outputs = Ok (m', writes outputs).
Proof.
  intros H. rewrite (scatter_log_scatter outputs m []) in H.
  destruct (scatter_log m [] outputs) as [[m1 w1]|e] eqn:E; [|discriminate].
  inversion H; subst m1. now rewrite (scatter_log_written _ _ _ E).
Qed.

End SweepFacts.

(** ** [adapt_matrix]: the sweep over initial conditions *)

Module GridFacts.
Import Numpy NumpyFacts Conditions Float64Facts.




End GridFacts.

Module SweepTheorems.
Import Numpy NumpyFacts Py Conditions LoopFacts PoolFacts SweepFacts GridFacts AdaptiveRegion.

Section Sweep.
Variable pow : float -> float -> float.
Variable odeint : (state -> float -> state) -> state -> list float -> list state.
Variable name__ : string.
Variable choices : list nat.

Local Abbreviation survival := (AdaptiveRegion.survival pow odeint).
Local Abbreviation helper := (AdaptiveRegion.helper pow odeint).
Local Abbreviation collected := (AdaptiveRegion.collected pow odeint choices).
Local Abbreviation adapt_matrix := (AdaptiveRegion.adapt_matrix pow odeint name__ choices).

Lemma writes_helper (conds : list (float * float * nat * nat)) :
  writes (map helper conds) = map (fun z => (snd z, snd (fst z))) conds.
Proof.
  unfold writes. rewrite map_map. apply map_ext. now intros [[[a b] pa] pb].
Qed.

Lemma cells_make_conds (init_A init_B : list float) :
  map (fun z : float * float * nat * nat => (snd z, snd (fst z)))
      (make_conds init_A init_B)
  = cells (length init_A) (length init_B).
Proof.
  unfold make_conds, cells. rewrite map_over_flat_map.
  rewrite <- (map_fst_enumerate init_A), flat_map_over_map.
  apply flat_map_ext. intros pa. rewrite map_map. simpl.
  now rewrite <- (map_fst_enumerate init_B), map_map.
Qed.

Lemma in_make_conds (init_A init_B : list float) (a b : float) (pa pb : nat) :
  nth_error init_A pa = Some a -> nth_error init_B pb = Some b ->
  In (a, b, pa, pb) (make_conds init_A init_B).
Proof.
  intros Ha Hb. unfold make_conds. apply in_flat_map.
  exists (pa, a). split; [now apply in_enumerate|].
  apply in_map_iff. exists (pb, b). split; [reflexivity|now apply in_enumerate].
Qed.

(** The job results: the pool hands back [helper] of each tuple, whatever the
    scheduler chose. *)
Lemma collected_eq (R : nat) :
  collected R =
  map helper (make_conds (linspace 0 20 R) (flip (linspace 0 20 R))).
Proof. unfold AdaptiveRegion.collected. cbv zeta. apply pool_map_eq_map. Qed.

Lemma writes_collected (R : nat) : writes (collected R) = cells R R.
Proof.
  rewrite collected_eq, writes_helper, cells_make_conds.
  now rewrite length_flip, length_linspace.
Qed.

Lemma in_collected (R r c : nat) :
  (r < R)%nat -> (c < R)%nat ->
  In (survival (nth c (linspace 0 20 R) 0) (nth r (flip (linspace 0 20 R)) 0), c, r)
     (collected R).
Proof.
  intros Hr Hc. rewrite collected_eq.
  change (survival ?a ?b, c, r) with (helper (a, b, c, r)).
  apply in_map. apply in_make_conds; apply nth_error_nth';
    rewrite ?length_flip, length_linspace; assumption.
Qed.

(** Run as the main module at a non-negative resolution, [adapt_matrix]
    returns what the scatter loop makes of the zero matrix. *)
Lemma adapt_matrix_when_main (resolution : Z) :
  name__ = "__main__"%string -> (0 <= resolution)%Z ->
  adapt_matrix resolution =
  match scatter (zeros (Z.to_nat resolution) (Z.to_nat resolution))
                (collected (Z.to_nat resolution)) with
  | Ok m => Ok (Some m)
  | Raise e => Raise e
  end.
Proof.
  intros Hname Hres. unfold AdaptiveRegion.adapt_matrix.
  assert (Hneg : (resolution <? 0)%Z = false) by (apply Z.ltb_ge; exact Hres).
  rewrite Hneg, Hname. reflexivity.
Qed.

(** In any other module the function falls off its end. *)
Lemma adapt_matrix_elsewhere (resolution : Z) :
  name__ <> "__main__"%string -> (0 <= resolution)%Z ->
  adapt_matrix resolution = Ok None.
Proof.
  intros Hname Hres. unfold AdaptiveRegion.adapt_matrix.
  assert (Hneg : (resolution <? 0)%Z = false) by (apply Z.ltb_ge; exact Hres).
  rewrite Hneg. apply String.eqb_neq in Hname. now rewrite Hname.
Qed.

(** It returns a matrix in the main module only, and at no negative
    resolution. *)
Lemma adapt_matrix_returned (resolution : Z) (m : matrix) :
  adapt_matrix resolution = Ok (Some m) ->
  name__ = "__main__"%string /\ (0 <= resolution)%Z.
Proof.
  unfold AdaptiveRegion.adapt_matrix.
  destruct (resolution <? 0)%Z eqn:E; [discriminate|].
  destruct (name__ =? "__main__")%string eqn:En; [|discriminate].
  intros _. split; [now apply String.eqb_eq|now apply Z.ltb_ge].
Qed.

Lemma completed_perm (R : nat) :
  Permutation (AdaptiveRegion.completed pow odeint choices R) (collected R).
Proof. apply completion_order_perm. Qed.

Lemma collected_in_range (R : nat) :
  Forall (fun i : float * nat * nat => (snd i < R)%nat /\ (snd (fst i) < R)%nat)
         (collected R).
Proof.
  apply Forall_forall. intros i Hi.
  assert (Hw : In (snd i, snd (fst i)) (writes (collected R)))
    by (unfold writes; apply in_map_iff; exists i; auto).
  rewrite writes_collected in Hw. now apply in_cells in Hw.
Qed.

Lemma NoDup_writes_collected (R : nat) : NoDup (writes (collected R)).
Proof. rewrite writes_collected. apply NoDup_cells. Qed.

(** The scatter loop does not fail on the collected job results, and leaves
    each label in the cell its job result names. *)
Lemma scatter_collected (R : nat) :
  exists m,
    scatter (zeros R R) (collected R) = Ok m /\ has_shape R R m /\
    (forall i, In i (collected R) ->
               getitem m (snd i) (snd (fst i)) = Some (fst (fst i))).
Proof.
  destruct (@scatter_spec R R (collected R) (zeros R R)) as [m [Hrun [Hs [Hin _]]]].
  - apply zeros_shape.
  - apply collected_in_range.
  - apply NoDup_writes_collected.
  - exists m. auto.
Qed.

Lemma adapt_matrix_main (resolution : Z) :
  name__ = "__main__"%string -> (0 <= resolution)%Z ->
  let R := Z.to_nat resolution in
  exists m,
    adapt_matrix resolution = Ok (Some m) /\ has_shape R R m /\
    (forall i, In i (collected R) ->
               getitem m (snd i) (snd (fst i)) = Some (fst (fst i))).
Proof.
  intros Hname Hres R.
  destruct (scatter_collected R) as [m [Hrun H]].
  exists m. rewrite (adapt_matrix_when_main Hname Hres). fold R.
  rewrite Hrun. auto.
Qed.

(** C4, amended.  At a positive resolution [R]: run as the main module,
    [adapt_matrix] returns an [R] by [R] matrix, the one its loop over the
    collected job results leaves; the assignments of that loop all fall inside
    the matrix, every cell is assigned exactly once, and each cell holds the
    label of the job result that carries its position.  In any other module
    [adapt_matrix] returns [None]. *)
Theorem adapt_matrix_covers (resolution : Z) :
  (0 < resolution)%Z ->
  let R := Z.to_nat resolution in
  (name__ = "__main__"%string ->
   exists m written,
     adapt_matrix resolution = Ok (Some m) /\
     scatter_log (zeros R R) [] (collected R) = Ok (m, written) /\
     has_shape R R m /\
     length written = (R * R)%nat /\
     (forall cell, In cell written -> (fst cell < R)%nat /\ (snd cell < R)%nat) /\
     (forall r c, (r < R)%nat -> (c < R)%nat ->
        count_occ cell_eq_dec written (r, c) = 1%nat /\
        exists v, In (v, c, r) (collected R) /\ getitem m r c = Some v)) /\
  (name__ <> "__main__"%string -> adapt_matrix resolution = Ok None).
Proof.
  intros Hres R. split.
  - intros Hname.
    destruct (scatter_collected R) as [m [Hrun [Hs Hin]]].
    exists m, (writes (collected R)).
    split.
    { rewrite (adapt_matrix_when_main Hname (Z.lt_le_incl _ _ Hres)). fold R.
      now rewrite Hrun. }
    split; [now apply scatter_log_of_scatter|].
    split; [exact Hs|]. split.
    { rewrite writes_collected. apply length_cells. }
    split.
    + intros [r c] H. rewrite writes_collected in H. now apply in_cells in H.
    + intros r c Hr Hc. split.
      * rewrite writes_collected. now apply count_occ_cells.
      * eexists. split; [apply (in_collected Hr Hc)|].
        apply (Hin _ (in_collected Hr Hc)).
  - intros Hname. apply (adapt_matrix_elsewhere Hname (Z.lt_le_incl _ _ Hres)).
Qed.

(** In the matrix [adapt_matrix] returns, at any resolution, the cell
    [(row, col)] holds the label of [A0] = the [col]-th value of the grid
    [linspace(0, 20, R)] and [B0] = the [row]-th value of the flipped grid,
    which is the grid read from its end. *)
Theorem adapt_matrix_cells (resolution : Z) (m : matrix) :
  adapt_matrix resolution = Ok (Some m) ->
  let R := Z.to_nat resolution in
  let grid := linspace 0 20 R in
  has_shape R R m /\ length grid = R /\
  forall row col, (row < R)%nat -> (col < R)%nat ->
    getitem m row col = Some (survival (nth col grid 0) (nth row (flip grid) 0)) /\
    nth row (flip grid) 0 = nth (R - 1 - row) grid 0.
Proof.
  intros Hrun R grid.
  assert (Hlen : length grid = R) by apply length_linspace.
  destruct (adapt_matrix_returned _ Hrun) as [Hname Hres].
  destruct (adapt_matrix_main Hname Hres) as [m' [Hrun' [Hs Hin]]].
  rewrite Hrun in Hrun'. inversion Hrun'; subst m'. fold R in Hin, Hs.
  split; [exact Hs|]. split; [exact Hlen|].
  intros row col Hr Hc. split.
  - apply (Hin _ (in_collected Hr Hc)).
  - rewrite nth_flip by (rewrite Hlen; exact Hr). now rewrite Hlen.
Qed.

(** Every cell of the matrix [adapt_matrix] returns holds one of the three
    labels 0.0, 1.0 and -1.0. *)
Theorem adapt_matrix_labels (resolution : Z) (m : matrix) :
  adapt_matrix resolution = Ok (Some m) ->
  forall row col, (row < Z.to_nat resolution)%nat -> (col < Z.to_nat resolution)%nat ->
    exists v, getitem m row col = Some v /\ (v = 0 \/ v = 1 \/ v = -1).
Proof.
  intros Hrun row col Hr Hc.
  destruct (adapt_matrix_returned _ Hrun) as [Hname Hres].
  destruct (adapt_matrix_main Hname Hres) as [m' [Hrun' [_ Hin]]].
  rewrite Hrun in Hrun'. inversion Hrun'; subst m'.
  eexists. split; [apply (Hin _ (in_collected Hr Hc))|].
  cbn [fst snd].
  destruct (SurvivalFacts.survival_cases pow odeint
              (nth col (linspace 0 20 (Z.to_nat resolution)) 0)
              (nth row (flip (linspace 0 20 (Z.to_nat resolution))) 0))
    as [[_ Hs]|[[_ [_ Hs]]|[_ [_ Hs]]]]; auto.
Qed.

End Sweep.


(** C9.  Two runs of [adapt_matrix] at one resolution return the same result
    whatever the pool's scheduler chooses in each; and the matrix does not
    depend on the order of the job results either: the scatter loop run on the
    job results of the second run in any order (the order of completion, for
    one) leaves the matrix the first run returned, because each job result is
    [helper] of its tuple and carries the cell it is for. *)
Theorem adapt_matrix_deterministic
        (pow : float -> float -> float)
        (odeint : (state -> float -> state) -> state -> list float -> list state)
        (name__ : string) (choices1 choices2 : list nat) (resolution : Z)
        (outputs : list (float * nat * nat)) :
  let R := Z.to_nat resolution in
  Permutation outputs (AdaptiveRegion.collected pow odeint choices2 R) ->
  AdaptiveRegion.adapt_matrix pow odeint name__ choices1 resolution
  = AdaptiveRegion.adapt_matrix pow odeint name__ choices2 resolution /\
  forall m,
    AdaptiveRegion.adapt_matrix pow odeint name__ choices1 resolution = Ok (Some m) ->
    scatter (zeros R R) outputs = Ok m /\
    forall row col, (row < R)%nat -> (col < R)%nat ->
      getitem m row col
      = Some (AdaptiveRegion.survival pow odeint
                (nth col (linspace 0 20 R) 0) (nth row (flip (linspace 0 20 R)) 0)).
Proof.
  intros R Hperm.
  assert (Hsame : AdaptiveRegion.collected pow odeint choices1 R
                  = AdaptiveRegion.collected pow odeint choices2 R)
    by (now rewrite !collected_eq).
  split.
  - unfold AdaptiveRegion.adapt_matrix. now rewrite !pool_map_eq_map.
  - intros m Hrun.
    destruct (adapt_matrix_returned _ _ _ _ _ Hrun) as [Hname Hres].
    rewrite (adapt_matrix_when_main pow odeint choices1 Hname Hres) in Hrun.
    fold R in Hrun. rewrite Hsame in Hrun.
    destruct (scatter (zeros R R) (AdaptiveRegion.collected pow odeint choices2 R))
      as [m'|e] eqn:E; [|discriminate].
    inversion Hrun; subst m'. split.
    + rewrite <- E.
      apply (@scatter_permutation R R); auto using zeros_shape.
      * apply collected_in_range.
      * apply NoDup_writes_collected.
    + intros row col Hr Hc.
      destruct (scatter_collected pow odeint choices2 R) as [m2 [Hrun2 [_ Hin]]].
      rewrite E in Hrun2. inversion Hrun2; subst m2.
      apply (Hin _ (in_collected pow odeint choices2 Hr Hc)).
Qed.

End SweepTheorems.

Module SweepRuns.
Import Numpy Conditions AdaptiveRegion.

(** The sweep at resolution 3 on the integrator that holds the initial state:
    rows run from [B0 = 20] down to [B0 = 0], columns from [A0 = 0] up to
    [A0 = 20]. *)
Example adapt_matrix_3 :
  adapt_matrix Samples.pow Samples.hold "__main__" [2; 0; 1]%nat 3
  = Ok (Some [[-1; 1; 1]; [-1; 0; 1]; [-1; -1; -1]]).
Proof. vm_compute. reflexivity. Qed.

(** C4 as stated fails: in a module that is not the main one (a pool worker
    that imports the script, for one) the function falls off its end and
    returns [None], no matrix. *)
Lemma adapt_matrix_not_main :
  adapt_matrix Samples.pow Samples.hold "__mp_main__" [] 3 = Ok None /\
  forall m, adapt_matrix Samples.pow Samples.hold "__mp_main__" [] 3 <> Ok (Some m).
Proof.
  assert (E : adapt_matrix Samples.pow Samples.hold "__mp_main__" [] 3 = Ok None)
    by (vm_compute; reflexivity).
  split; [exact E|]. intros m. rewrite E. discriminate.
Qed.

Lemma adapt_matrix_covers_witness :
  ("__main__"%string = "__main__"%string ->
   exists m written,
     adapt_matrix Samples.pow Samples.hold "__main__" [2; 0; 1]%nat 3 = Ok (Some m) /\
     scatter_log (zeros 3 3) [] (collected Samples.pow Samples.hold [2; 0; 1]%nat 3)
     = Ok (m, written) /\
     has_shape 3 3 m /\
     length written = 9%nat /\
     (forall cell, In cell written -> (fst cell < 3)%nat /\ (snd cell < 3)%nat) /\
     (forall r c, (r < 3)%nat -> (c < 3)%nat ->
        count_occ cell_eq_dec written (r, c) = 1%nat /\
        exists v, In (v, c, r) (collected Samples.pow Samples.hold [2; 0; 1]%nat 3) /\
                  getitem m r c = Some v)) /\
  ("__main__"%string <> "__main__"%string ->
   adapt_matrix Samples.pow Samples.hold "__main__" [2; 0; 1]%nat 3 = Ok None).
Proof.
  apply (@SweepTheorems.adapt_matrix_covers Samples.pow Samples.hold
            "__main__" [2; 0; 1]%nat 3).
  lia.
Defined.

Lemma adapt_matrix_cells_witness :
  let m := [[-1; 1; 1]; [-1; 0; 1]; [-1; -1; -1]] in
  let grid := linspace 0 20 3 in
  adapt_matrix Samples.pow Samples.hold "__main__" [2; 0; 1]%nat 3 = Ok (Some m) /\
  has_shape 3 3 m /\ length grid = 3%nat /\
  forall row col, (row < 3)%nat -> (col < 3)%nat ->
    getitem m row col
    = Some (survival Samples.pow Samples.hold (nth col grid 0) (nth row (flip grid) 0)) /\
    nth row (flip grid) 0 = nth (3 - 1 - row) grid 0.
Proof.
  intros m grid. split; [vm_compute; reflexivity|].
  apply (@SweepTheorems.adapt_matrix_cells Samples.pow Samples.hold
            "__main__" [2; 0; 1]%nat 3 m).
  vm_compute; reflexivity.
Defined.

Lemma adapt_matrix_labels_witness :
  let m := [[-1; 1; 1]; [-1; 0; 1]; [-1; -1; -1]] in
  adapt_matrix Samples.pow Samples.hold "__main__" [2; 0; 1]%nat 3 = Ok (Some m) /\
  forall row col, (row < 3)%nat -> (col < 3)%nat ->
    exists v, getitem m row col = Some v /\ (v = 0 \/ v = 1 \/ v = -1).
Proof.
  intros m. split; [vm_compute; reflexivity|].
  apply (@SweepTheorems.adapt_matrix_labels Samples.pow Samples.hold
            "__main__" [2; 0; 1]%nat 3 m).
  vm_compute; reflexivity.
Defined.


(** The order in which the pool completes the nine jobs of a second run
    under the choices 1, 1 is not their order of submission; the loop run on
    the results in that order leaves the matrix of the first run. *)
Example completed_3 :
  writes (completed Samples.pow Samples.hold [1; 1]%nat 3)
  = [(1, 0); (2, 0); (0, 0); (0, 1); (1, 1); (2, 1); (0, 2); (1, 2); (2, 2)]%nat.
Proof. vm_compute. reflexivity. Qed.

Lemma adapt_matrix_deterministic_witness :
  let outputs := completed Samples.pow Samples.hold [1; 1]%nat 3 in
  Permutation outputs (collected Samples.pow Samples.hold [1; 1]%nat 3) /\
  adapt_matrix Samples.pow Samples.hold "__main__" [2; 0; 1]%nat 3
  = adapt_matrix Samples.pow Samples.hold "__main__" [1; 1]%nat 3 /\
  forall m,
    adapt_matrix Samples.pow Samples.hold "__main__" [2; 0; 1]%nat 3 = Ok (Some m) ->
    scatter (zeros 3 3) outputs = Ok m /\
    forall row col, (row < 3)%nat -> (col < 3)%nat ->
      getitem m row col
      = Some (survival Samples.pow Samples.hold
                (nth col (linspace 0 20 3) 0) (nth row (flip (linspace 0 20 3)) 0)).
Proof.
  intros outputs. split; [apply SweepTheorems.completed_perm|].
  apply (@SweepTheorems.adapt_matrix_deterministic Samples.pow Samples.hold
            "__main__" [2; 0; 1]%nat [1; 1]%nat 3 outputs).
  apply SweepTheorems.completed_perm.
Defined.

End SweepRuns.

(** ** [ode_func]: the four-state vector field *)

Module FieldFacts.
Import AdaptiveRegion Float64Facts Float64More.

(** Where the linear expression is not NaN, the cut of [N] at 0 is the
    maximum of 0 and the expression, and so is that of [F]. *)
Lemma N_is_max (L S C : float) :
  is_nan (S * L + C) = false -> N L S C = Reference.supplyRising L S C.
Proof.
  intros H. unfold N, Reference.supplyRising, Reference.max.
  destruct (S * L + C <? 0) eqn:E.
  - now rewrite (ltb_leb_false E).
  - apply not_nan_spec in H.
    now rewrite (@ltb_false_leb _ 0 H eq_refl E).
Qed.

Lemma F_is_max (L S C : float) :
  is_nan ((- S) * L + C) = false -> F L S C = Reference.supplyFalling L S C.
Proof.
  intros H. unfold F, Reference.supplyFalling, Reference.max.
  rewrite <- (mul_opp_l S L).
  destruct ((- S) * L + C <? 0) eqn:E.
  - now rewrite (ltb_leb_false E).
  - apply not_nan_spec in H.
    now rewrite (@ltb_false_leb _ 0 H eq_refl E).
Qed.

(** C6.  At every state [(L, A, B, X)] whose location is a number, [ode_func]
    returns the four derivatives of the reference equations, taken at the
    parameter values of the script: the rate [(X - 0.5) * V] of the location,
    [gamma * hill(B) * supplyRising(L) - kd * A] and its mirror image for the
    metabolites with the supplies [max(0, slope * L + intercept)] and
    [max(0, - slope * L + intercept)], and
    [alpha * K2^h / (target^h + K2^h) - X] for the behavioural variable.  The
    time does not enter. *)
Theorem ode_func_reference (pow : float -> float -> float) (L A B X t : float) :
  is_nan L = false ->
  ode_func pow (L, A, B, X) t
  = Reference.field pow
      {| Reference.alpha := 1; Reference.gamma := 0.04; Reference.kd := 0.05;
         Reference.K1 := 4; Reference.n := 3; Reference.h := 20;
         Reference.K2 := 0.5; Reference.slope := 4; Reference.intercept := 9;
         Reference.V := 2 |}
      (L, A, B, X).
Proof.
  intros HL.
  assert (HN : N L 4 9 = Reference.supplyRising L 4 9).
  { apply N_is_max. apply linear_defined; [|reflexivity|exact HL].
    vm_compute. eauto. }
  assert (HF : F L 4 9 = Reference.supplyFalling L 4 9).
  { apply F_is_max. apply linear_defined; [|reflexivity|exact HL].
    vm_compute. eauto. }
  unfold ode_func, Reference.field, Reference.dL_dt, Reference.dA_dt,
    Reference.dB_dt, Reference.dX_dt, Reference.hill, Reference.target.
  cbn [Reference.alpha Reference.gamma Reference.kd Reference.K1 Reference.n
       Reference.h Reference.K2 Reference.slope Reference.intercept Reference.V].
  change (Float64.of_int 4) with 4. change (Float64.of_int 9) with 9.
  rewrite HN, HF. reflexivity.
Qed.

Lemma ode_func_reference_witness :
  is_nan (-10) = false /\
  ode_func Samples.pow (-10, 1, 2, 0.5) 0
  = Reference.field Samples.pow
      {| Reference.alpha := 1; Reference.gamma := 0.04; Reference.kd := 0.05;
         Reference.K1 := 4; Reference.n := 3; Reference.h := 20;
         Reference.K2 := 0.5; Reference.slope := 4; Reference.intercept := 9;
         Reference.V := 2 |}
      (-10, 1, 2, 0.5).
Proof.
  split; [reflexivity|]. apply (@ode_func_reference Samples.pow (-10) 1 2 0.5 0).
  reflexivity.
Defined.

(** At a location that is NaN the two differ: the supply of the script is
    NaN, the maximum of the reference is 0. *)
Example ode_func_at_nan_location :
  ode_func Samples.pow (nan, 1, 2, 0.5) 0
  <> Reference.field Samples.pow
       {| Reference.alpha := 1; Reference.gamma := 0.04; Reference.kd := 0.05;
          Reference.K1 := 4; Reference.n := 3; Reference.h := 20;
          Reference.K2 := 0.5; Reference.slope := 4; Reference.intercept := 9;
          Reference.V := 2 |}
       (nan, 1, 2, 0.5).
Proof. vm_compute. intros H. inversion H. Qed.

(** The field at the initial condition [A = B = 0] of the sweep: the target of
    the behavioural variable is 0/0, so its derivative is NaN. *)
Example ode_func_at_origin :
  ode_func Samples.pow (-10, 0, 0, 0.5) 0 = (0, 0, 0, nan).
Proof. vm_compute. reflexivity. Qed.

(** At a state inside the viable region. *)
Example ode_func_sample :
  ode_func Samples.pow (0, 4, 4, 0.5) 0
  = (0, 0.04 * (64 / 128) * 9 - 0.05 * 4, 0.04 * (64 / 128) * 9 - 0.05 * 4,
     Samples.pow 0.5 20 / (Samples.pow 0.5 20 + Samples.pow 0.5 20) - 0.5).
Proof. vm_compute. reflexivity. Qed.

End FieldFacts.

(** ** [AB_survival] and [AB_assess]: the sweep over fixed environments *)

Module MeanFacts.
Import Numpy Conditions.

(** Counts up to 2500 add exactly: checked on every count. *)
Lemma counts_add_exactly :
  forallb (fun z => PrimFloat.Leibniz.eqb (Float64.of_int z + 0) (Float64.of_int z)
                    && PrimFloat.Leibniz.eqb (Float64.of_int z + 1)
                                             (Float64.of_int (Z.succ z)))
          (count_from 0 2500) = true.
Proof. vm_compute. reflexivity. Qed.

(** A count out of 2500 is a fraction between 0 and 1, and not 0.0 unless the
    count is 0: checked on every count. *)
Lemma fractions_in_unit_interval :
  forallb (fun z => (0 <=? Float64.of_int z / of_nat 2500)
                    && (Float64.of_int z / of_nat 2500 <=? 1)
                    && ((z =? 0)%Z || negb (Float64.of_int z / of_nat 2500 =? 0)))
          (count_from 0 2501) = true.
Proof. vm_compute. reflexivity. Qed.

Lemma count_checked (k : nat) :
  (k < 2500)%nat -> In (Z.of_nat k) (count_from 0 2500).
Proof. intros H. apply CountFacts.in_count_from. lia. Qed.

Lemma count_plus_zero (k : nat) : (k < 2500)%nat -> of_nat k + 0 = of_nat k.
Proof.
  intros H. pose proof counts_add_exactly as G. rewrite forallb_forall in G.
  specialize (G _ (count_checked H)).
  apply andb_prop in G as [G _]. now apply FloatAxioms.Leibniz.eqb_spec.
Qed.

Lemma count_plus_one (k : nat) : (k < 2500)%nat -> of_nat k + 1 = of_nat (S k).
Proof.
  intros H. pose proof counts_add_exactly as G. rewrite forallb_forall in G.
  specialize (G _ (count_checked H)).
  apply andb_prop in G as [_ G]. apply FloatAxioms.Leibniz.eqb_spec in G.
  unfold of_nat. now rewrite Nat2Z.inj_succ.
Qed.

Lemma fraction_checked (k : nat) :
  (k <= 2500)%nat ->
  (0 <=? of_nat k / of_nat 2500) = true /\ (of_nat k / of_nat 2500 <=? 1) = true /\
  ((1 <= k)%nat -> of_nat k / of_nat 2500 <> 0).
Proof.
  intros H. pose proof fractions_in_unit_interval as G. rewrite forallb_forall in G.
  specialize (G (Z.of_nat k)). rewrite CountFacts.in_count_from in G.
  specialize (G ltac:(lia)).
  apply andb_prop in G as [G Hpos]. apply andb_prop in G as [Hlo Hhi].
  split; [exact Hlo|]. split; [exact Hhi|]. intros Hk E.
  apply orb_prop in Hpos as [Hz|Hnz].
  - apply Z.eqb_eq in Hz. lia.
  - unfold of_nat in E at 1. rewrite E in Hnz. discriminate.
Qed.

(** A score of one trial. *)
Local Abbreviation binary := (fun s : float => s = 0 \/ s = 1).

Lemma fold_scores (scores : list float) : forall k,
  Forall binary scores -> (k + length scores <= 2500)%nat ->
  fold_left add scores (of_nat k) = of_nat (k + tally scores).
Proof.
  unfold tally.
  induction scores as [|s l IH]; intros k Hb Hlen; simpl.
  - now rewrite Nat.add_0_r.
  - inversion Hb as [|? ? Hs Hl]; subst. simpl in Hlen.
    destruct Hs as [->| ->].
    + rewrite count_plus_zero by lia.
      replace (0 =? 1) with false by reflexivity. apply IH; [exact Hl|lia].
    + rewrite count_plus_one by lia.
      replace (1 =? 1) with true by reflexivity. simpl.
      rewrite IH by (trivial; lia). f_equal. lia.
Qed.

Lemma tally_le_length (scores : list float) : (tally scores <= length scores)%nat.
Proof. unfold tally. apply filter_length_le. Qed.

Lemma tally_positive (scores : list float) : In 1 scores -> (1 <= tally scores)%nat.
Proof.
  unfold tally. induction scores as [|s l IH]; simpl; [contradiction|].
  intros [->|H].
  - replace (1 =? 1) with true by reflexivity. simpl. lia.
  - specialize (IH H). destruct (s =? 1); simpl; lia.
Qed.

Lemma fraction_not_zero (k : nat) :
  (1 <= k <= 2500)%nat -> of_nat k / of_nat 2500 <> 0.
Proof.
  intros [H1 H2]. now apply (@fraction_checked k H2).
Qed.

(** The mean of 2500 binary scores is the count of the ones over 2500, a value
    between 0 and 1. *)
Lemma mean_of_scores (scores : list float) :
  Forall binary scores -> length scores = 2500%nat ->
  mean scores = of_nat (tally scores) / of_nat 2500 /\
  (0 <=? mean scores) = true /\ (mean scores <=? 1) = true.
Proof.
  intros Hb Hlen.
  assert (E : fold_left add scores 0 = of_nat (tally scores)).
  { change 0 with (of_nat 0). rewrite fold_scores by (trivial; lia). reflexivity. }
  unfold mean, sum. rewrite Hlen, E. split; [reflexivity|].
  pose proof (tally_le_length scores) as Ht.
  destruct (@fraction_checked (tally scores)) as [Hlo [Hhi _]]; [lia|]. now split.
Qed.

End MeanFacts.

Module FixedFacts.
Import Numpy NumpyFacts Conditions VerdictFacts PoolFacts MeanFacts FixedCondSurvival.

Lemma length_make_conds (N F : float) (init_A init_B : list float) :
  length (make_conds N F init_A init_B) = (length init_A * length init_B)%nat.
Proof.
  unfold make_conds. induction init_A as [|a l IH]; simpl; [reflexivity|].
  now rewrite length_app, length_map, IH.
Qed.

Section Sweep.
Variable pow : float -> float -> float.
Variable odeint : (state -> float -> state) -> state -> list float -> list state.
Variable name__ : string.
Variable choices : list nat.

Local Abbreviation trajectory := (FixedCondSurvival.trajectory pow odeint).
Local Abbreviation AB_survival := (FixedCondSurvival.AB_survival pow odeint).
Local Abbreviation helper := (FixedCondSurvival.helper pow odeint).
Local Abbreviation AB_assess := (FixedCondSurvival.AB_assess pow odeint name__ choices).

(** The score of one trial: 1.0 when the trajectory is viable at every sampled
    time point, 0.0 otherwise. *)
Lemma AB_survival_rule (N F a b : float) :
  AB_survival N F a b = if forallb viable (trajectory N F a b) then 1 else 0.
Proof.
  unfold FixedCondSurvival.AB_survival. cbv zeta.
  rewrite all_three_viable. now destruct (forallb viable _).
Qed.

Lemma AB_survival_binary (N F a b : float) :
  AB_survival N F a b = 0 \/ AB_survival N F a b = 1.
Proof. rewrite AB_survival_rule. destruct (forallb viable _); auto. Qed.

(** The scores of the sub-grid, one per pair of initial concentrations. *)
Lemma scores_of_subgrid (N F : float) (init_A init_B : list float) :
  map helper (make_conds N F init_A init_B)
  = flat_map (fun a => map (AB_survival N F a) init_B) init_A.
Proof.
  unfold make_conds. induction init_A as [|a l IH]; simpl; [reflexivity|].
  now rewrite map_app, map_map, IH.
Qed.

Lemma scores_length (N F : float) :
  length (flat_map (fun a => map (AB_survival N F a) (linspace 0 20 50))
                   (linspace 0 20 50)) = 2500%nat.
Proof.
  rewrite <- scores_of_subgrid, length_map, length_make_conds.
  now rewrite length_linspace.
Qed.

Lemma scores_binary (N F : float) (grid : list float) :
  Forall (fun s => s = 0 \/ s = 1)
         (flat_map (fun a => map (AB_survival N F a) grid) grid).
Proof.
  apply Forall_forall. intros s Hs.
  apply in_flat_map in Hs as [a [_ Hs]]. apply in_map_iff in Hs as [b [<- _]].
  apply AB_survival_binary.
Qed.

(** C7, amended.  Every trial score is 1.0 (viable at every sampled time point)
    or 0.0; run as the main module, [AB_assess] returns the mean of the scores
    of the full 50 x 50 sub-grid, which is the count of the surviving trials
    over 2500, a value between 0 and 1. *)
Theorem AB_assess_mean (N F : float) :
  name__ = "__main__"%string ->
  let grid := linspace 0 20 50 in
  let scores := flat_map (fun a => map (AB_survival N F a) grid) grid in
  (forall a b,
     AB_survival N F a b = if forallb viable (trajectory N F a b) then 1 else 0) /\
  length scores = 2500%nat /\
  Forall (fun s => s = 0 \/ s = 1) scores /\
  AB_assess N F = mean scores /\
  mean scores = of_nat (tally scores) / of_nat 2500 /\
  (0 <=? AB_assess N F) = true /\ (AB_assess N F <=? 1) = true.
Proof.
  intros Hname grid scores.
  pose proof (scores_length N F) as Hlen. fold grid scores in Hlen.
  pose proof (scores_binary N F grid) as Hbin. fold scores in Hbin.
  assert (Hrun : AB_assess N F = mean scores).
  { unfold FixedCondSurvival.AB_assess. rewrite Hname. cbv zeta. simpl String.eqb.
    rewrite pool_map_eq_map. unfold scores, grid. now rewrite scores_of_subgrid. }
  destruct (mean_of_scores Hbin Hlen) as [Hmean [Hlo Hhi]].
  rewrite Hrun. repeat split; auto using AB_survival_rule.
Qed.

(** In a module that is not the main one [AB_assess] returns its initial 0.0. *)
Lemma AB_assess_elsewhere (N F : float) :
  name__ <> "__main__"%string -> AB_assess N F = 0.
Proof.
  intros H. unfold FixedCondSurvival.AB_assess. apply String.eqb_neq in H.
  now rewrite H.
Qed.

End Sweep.
End FixedFacts.

Module FixedRuns.
Import Numpy Conditions FixedCondSurvival.

(** The scores of the sub-grid on the integrator that holds the initial state. *)
Local Abbreviation held_scores N F :=
  (flat_map (fun a => map (AB_survival Samples.pow Samples.hold N F a)
                          (linspace 0 20 50))
            (linspace 0 20 50)).

(** One trial of that sub-grid survives: the eleventh grid value for both
    metabolites. *)
Lemma held_trial_survives :
  AB_survival Samples.pow Samples.hold 1 1
    (nth 10 (linspace 0 20 50) 0) (nth 10 (linspace 0 20 50) 0) = 1.
Proof. vm_compute. reflexivity. Qed.

(** C7 as stated fails: in a module that is not the main one [AB_assess]
    returns 0.0, which is not the mean of the sub-grid's scores. *)
Lemma AB_assess_not_main :
  AB_assess Samples.pow Samples.hold "__mp_main__" [] 1 1 = 0 /\
  AB_assess Samples.pow Samples.hold "__mp_main__" [] 1 1 <> mean (held_scores 1 1).
Proof.
  assert (E0 : AB_assess Samples.pow Samples.hold "__mp_main__" [] 1 1 = 0)
    by (apply FixedFacts.AB_assess_elsewhere; discriminate).
  split; [exact E0|]. rewrite E0. intros E.
  destruct (MeanFacts.mean_of_scores
              (FixedFacts.scores_binary Samples.pow Samples.hold 1 1 (linspace 0 20 50))
              (FixedFacts.scores_length Samples.pow Samples.hold 1 1))
    as [Hmean _].
  rewrite Hmean in E. symmetry in E. revert E.
  apply MeanFacts.fraction_not_zero. split.
  - apply MeanFacts.tally_positive. apply in_flat_map.
    exists (nth 10 (linspace 0 20 50) 0). split.
    + apply nth_In. rewrite NumpyFacts.length_linspace. lia.
    + rewrite <- held_trial_survives at 1. apply in_map.
      apply nth_In. rewrite NumpyFacts.length_linspace. lia.
  - rewrite <- (FixedFacts.scores_length Samples.pow Samples.hold 1 1).
    apply MeanFacts.tally_le_length.
Qed.

Lemma AB_assess_mean_witness :
  let scores := held_scores 1 1 in
  (forall a b,
     AB_survival Samples.pow Samples.hold 1 1 a b
     = if forallb viable (trajectory Samples.pow Samples.hold 1 1 a b) then 1 else 0) /\
  length scores = 2500%nat /\
  Forall (fun s => s = 0 \/ s = 1) scores /\
  AB_assess Samples.pow Samples.hold "__main__" [7; 3]%nat 1 1 = mean scores /\
  mean scores = of_nat (tally scores) / of_nat 2500 /\
  (0 <=? AB_assess Samples.pow Samples.hold "__main__" [7; 3]%nat 1 1) = true /\
  (AB_assess Samples.pow Samples.hold "__main__" [7; 3]%nat 1 1 <=? 1) = true.
Proof.
  apply (@FixedFacts.AB_assess_mean Samples.pow Samples.hold "__main__" [7; 3]%nat 1 1).
  reflexivity.
Defined.

End FixedRuns.

(** ** The labels, read both ways *)

Module LabelFacts.
Import Conditions Float64Facts Float64More VerdictFacts AdaptiveRegion.

(** [A + B] is NaN. *)
Local Abbreviation nan_total := (fun ab : float * float => is_nan (fst ab + snd ab)).

Lemma not_gt_is_le (x : float) :
  is_nan x = false -> Float64.gtb x 0.1 = false -> (x <=? 0.1) = true.
Proof.
  intros Hx H. unfold Float64.gtb in H. apply ltb_false_leb; trivial.
  now apply not_nan_spec.
Qed.

Section Rule.
Variable ab : list (float * float).

Lemma bounded_not_viable_starves :
  forallb bounded ab = true -> forallb viable ab = false -> existsb starves ab = true.
Proof.
  induction ab as [|[a b] l IH]; simpl; [discriminate|].
  intros Hb Hv. apply andb_prop in Hb as [Hp Hl].
  destruct (viable (a, b)) eqn:E.
  - simpl in Hv. rewrite (IH Hl Hv). apply orb_true_r.
  - apply orb_true_intro. left. unfold viable, bounded, starves in *. simpl in *.
    destruct (leb_true_not_nan Hp) as [Hsum _].
    destruct (add_not_nan _ _ Hsum) as [Ha Hn].
    rewrite Hp, andb_true_r in E. apply andb_false_elim in E as [E|E].
    + now rewrite (not_gt_is_le Ha E).
    + rewrite (not_gt_is_le Hn E). apply orb_true_r.
Qed.

Lemma unbounded_iff :
  forallb bounded ab = false <->
  existsb (fun p => bursts p || nan_total p) ab = true.
Proof.
  induction ab as [|[a b] l IH]; simpl; [split; discriminate|].
  unfold bounded at 1, bursts at 1, Float64.gtb. simpl.
  destruct (a + b <=? 20) eqn:E; simpl.
  - rewrite (leb_ltb_false E).
    destruct (leb_true_not_nan E) as [-> _]. simpl. exact IH.
  - split; [intros _|reflexivity]. apply orb_true_intro. left.
    destruct (is_nan (a + b)) eqn:En; [apply orb_true_r|].
    assert (H20 : is_nan 20 = false) by reflexivity.
    rewrite (leb_false_ltb En H20 E). reflexivity.
Qed.

Lemma nan_metabolite_unbounded :
  existsb (fun p => is_nan (fst p) || is_nan (snd p)) ab = true ->
  forallb bounded ab = false.
Proof.
  induction ab as [|[a b] l IH]; simpl; [discriminate|].
  intros H. destruct (bounded (a, b)) eqn:E; [|reflexivity]. simpl.
  unfold bounded in E. simpl in E.
  destruct (leb_true_not_nan E) as [Hsum _].
  destruct (add_not_nan _ _ Hsum) as [Ha Hn]. simpl in H.
  rewrite Ha, Hn in H. simpl in H. now apply IH.
Qed.

End Rule.

(** Exchanging the two metabolites of every sample. *)
Local Abbreviation swap := (fun p : float * float => (snd p, fst p)).

Lemma viable_swap (p : float * float) : viable (swap p) = viable p.
Proof.
  unfold viable. simpl. rewrite (add_comm (snd p) (fst p)).
  now rewrite (andb_comm (Float64.gtb (snd p) 0.1)).
Qed.

Lemma bounded_swap (p : float * float) : bounded (swap p) = bounded p.
Proof. unfold bounded. simpl. now rewrite add_comm. Qed.

Lemma forallb_swap (f : float * float -> bool) :
  (forall p, f (swap p) = f p) ->
  forall l, forallb f (map swap l) = forallb f l.
Proof.
  intros Hf l. induction l as [|p l IH]; simpl; [reflexivity|].
  now rewrite Hf, IH.
Qed.

Section Labels.
Variable pow : float -> float -> float.
Variable odeint : (state -> float -> state) -> state -> list float -> list state.

Local Abbreviation samples a b :=
  (map metabolites (AdaptiveRegion.trajectory pow odeint a b)).
Local Abbreviation survival := (AdaptiveRegion.survival pow odeint).

(** The crisis label 1.0 is returned for the runs on which some sampled total
    fails [C <= 20], and only for them: the total exceeds 20 or is NaN. *)
Theorem survival_crisis_iff (a b : float) :
  survival a b = 1 <->
  existsb (fun p => bursts p || is_nan (fst p + snd p)) (samples a b) = true.
Proof.
  rewrite <- unbounded_iff.
  destruct (SurvivalFacts.survival_cases pow odeint a b)
    as [[Hv Hs]|[[Hv [Hb Hs]]|[Hv [Hb Hs]]]]; rewrite Hs.
  - rewrite <- all_three_viable, all_le_bounded in Hv.
    apply andb_prop in Hv as [_ ->]. split; [float_discriminate|discriminate].
  - now split.
  - rewrite Hb. split; [float_discriminate|discriminate].
Qed.

(** The starvation label -1.0 is returned for the runs on which every sampled
    total is at most 20 and some sampled [A] or [B] is 0.1 or below, and only
    for them. *)
Theorem survival_starvation_iff (a b : float) :
  survival a b = -1 <->
  forallb bounded (samples a b) = true /\ existsb starves (samples a b) = true.
Proof.
  destruct (SurvivalFacts.survival_cases pow odeint a b)
    as [[Hv Hs]|[[Hv [Hb Hs]]|[Hv [Hb Hs]]]]; rewrite Hs.
  - split; [float_discriminate|]. intros [_ H].
    apply starves_not_viable in H. congruence.
  - split; [float_discriminate|]. intros [H _]. congruence.
  - split; [intros _|reflexivity]. split; [exact Hb|].
    now apply bounded_not_viable_starves.
Qed.

(** A run with a NaN in either metabolite at some sample is labelled as a
    crisis. *)
Theorem survival_of_nan (a b : float) :
  existsb (fun p => is_nan (fst p) || is_nan (snd p)) (samples a b) = true ->
  survival a b = 1.
Proof.
  intros H. apply nan_metabolite_unbounded in H.
  destruct (SurvivalFacts.survival_cases pow odeint a b)
    as [[Hv Hs]|[[Hv [Hb Hs]]|[Hv [Hb Hs]]]]; trivial; [|congruence].
  rewrite <- all_three_viable, all_le_bounded, H, andb_false_r in Hv. discriminate.
Qed.

End Labels.

(** The label of a run depends on the sampled metabolites only, and not on
    which of the two is called [A]: two runs whose samples are each other's
    with [A] and [B] exchanged get the same label. *)
Theorem survival_exchange
        (pow pow' : float -> float -> float)
        (odeint odeint' : (state -> float -> state) -> state -> list float -> list state)
        (a b a' b' : float) :
  map metabolites (trajectory pow' odeint' a' b')
  = map swap (map metabolites (trajectory pow odeint a b)) ->
  AdaptiveRegion.survival pow' odeint' a' b' = AdaptiveRegion.survival pow odeint a b.
Proof.
  intros H. rewrite !SurvivalFacts.survival_rule. cbv zeta. rewrite H.
  set (ab := map metabolites (trajectory pow odeint a b)).
  rewrite (forallb_swap viable viable_swap), (forallb_swap bounded bounded_swap).
  rewrite !map_map. simpl.
  rewrite (map_ext (fun x => snd x) snd) by reflexivity.
  rewrite (map_ext (fun x => fst x) fst) by reflexivity.
  now rewrite (andb_comm (Py.all_gt (map snd ab) 0.1)).
Qed.

End LabelFacts.

(** ** The two supplies mirror each other *)

Module MirrorFacts.
Import Float64More AdaptiveRegion.


End MirrorFacts.

(** ** [env_combs]: the sweep over environments *)

Module TallyFacts.
Import Conditions MeanFacts.


Section Sums.
Variables X Y : Type.



End Sums.

(** 1 for a score of 1.0, 0 for any other. *)
Local Abbreviation one_if s := (if s =? 1 then 1%nat else 0%nat).




End TallyFacts.

Module EnvFacts.
Import Numpy NumpyFacts Py Conditions VerdictFacts LoopFacts PoolFacts SweepFacts
       MeanFacts TallyFacts FixedFacts LabelFacts FixedCondSurvival.

(** Exchanging the two coordinates of a state of the two-state model. *)
Local Abbreviation swap := (fun p : float * float => (snd p, fst p)).

Section Sweep.
Variable pow : float -> float -> float.
Variable odeint : (state -> float -> state) -> state -> list float -> list state.
Variable name__ : string.
Variable choices : list nat.

Local Abbreviation trajectory := (FixedCondSurvival.trajectory pow odeint).
Local Abbreviation AB_survival := (FixedCondSurvival.AB_survival pow odeint).
Local Abbreviation AB_assess := (FixedCondSurvival.AB_assess pow odeint name__ choices).
Local Abbreviation assign := (FixedCondSurvival.assign pow odeint name__ choices).
Local Abbreviation env_combs := (FixedCondSurvival.env_combs pow odeint name__ choices).

(** The value of [AB_assess] in either kind of module. *)
Lemma AB_assess_value (N F : float) :
  AB_assess N F =
  if (name__ =? "__main__")%string
  then mean (flat_map (fun a => map (AB_survival N F a) (linspace 0 20 50))
                      (linspace 0 20 50))
  else 0.
Proof.
  unfold FixedCondSurvival.AB_assess. cbv zeta.
  destruct (name__ =? "__main__")%string; [|reflexivity].
  now rewrite pool_map_eq_map, scores_of_subgrid.
Qed.

(** Whatever the module, [AB_assess] returns a value between 0 and 1. *)
Lemma AB_assess_range (N F : float) :
  (0 <=? AB_assess N F) = true /\ (AB_assess N F <=? 1) = true.
Proof.
  rewrite AB_assess_value. destruct (name__ =? "__main__")%string.
  - pose proof (mean_of_scores (scores_binary pow odeint N F (linspace 0 20 50))
                               (scores_length pow odeint N F)) as [_ H].
    exact H.
  - split; reflexivity.
Qed.

(** A trial with a NaN in either metabolite at some sample scores 0.0. *)
Theorem AB_survival_of_nan (N F a b : float) :
  existsb (fun p => is_nan (fst p) || is_nan (snd p)) (trajectory N F a b) = true ->
  AB_survival N F a b = 0.
Proof.
  intros H. rewrite AB_survival_rule.
  apply nan_metabolite_unbounded in H.
  rewrite <- all_three_viable, all_le_bounded, H, andb_false_r. reflexivity.
Qed.

(** The two nested loops of [env_combs] are a scatter loop over the visits,
    each tagged with its value and its cell. *)
Local Abbreviation tagged :=
  (fun v : (nat * float) * (nat * float) =>
     (AB_assess (snd (fst v)) (snd (snd v)), fst (fst v), fst (snd v))).

(** The visits of the two nested loops over [N_array] and [F_array]. *)
Local Abbreviation visits N_array F_array :=
  (flat_map (fun en : nat * float => map (fun ef : nat * float => (en, ef))
                                         (enumerate F_array))
            (enumerate N_array)).

Lemma assign_scatter : forall vs m,
  assign m vs = AdaptiveRegion.scatter m (map tagged vs).
Proof.
  induction vs as [|[en ef] rest IH]; intros m; simpl; [reflexivity|].
  destruct (setitem _ _ _ _); [apply IH|reflexivity].
Qed.

Lemma cells_visits (N_array F_array : list float) :
  AdaptiveRegion.writes (map tagged (visits N_array F_array))
  = cells (length N_array) (length F_array).
Proof.
  unfold AdaptiveRegion.writes, cells. rewrite map_map. simpl.
  rewrite map_over_flat_map.
  rewrite <- (map_fst_enumerate N_array), flat_map_over_map.
  apply flat_map_ext. intros en. rewrite map_map. simpl.
  now rewrite <- (map_fst_enumerate F_array), map_map.
Qed.

Lemma in_visits (N_array F_array : list float) (el_n el_f : nat) (n f : float) :
  nth_error N_array el_n = Some n -> nth_error F_array el_f = Some f ->
  In ((el_n, n), (el_f, f)) (visits N_array F_array).
Proof.
  intros Hn Hf. apply in_flat_map.
  exists (el_n, n). split; [now apply in_enumerate|].
  apply in_map_iff. exists (el_f, f). split; [reflexivity|now apply in_enumerate].
Qed.

Lemma env_combs_run (resolution : Z) :
  (0 <= resolution)%Z ->
  let R := Z.to_nat resolution in
  let grid := linspace 0 50 R in
  exists m,
    env_combs resolution = Ok m /\ has_shape R R m /\
    forall el_f el_n, (el_f < R)%nat -> (el_n < R)%nat ->
      getitem m el_f el_n
      = Some (AB_assess (nth el_n grid 0) (nth (R - 1 - el_f) grid 0)).
Proof.
  intros Hres R grid. unfold FixedCondSurvival.env_combs.
  assert (Hneg : (resolution <? 0)%Z = false) by (apply Z.ltb_ge; exact Hres).
  rewrite Hneg. cbv zeta. fold R. fold grid.
  assert (Hlen : length grid = R) by apply length_linspace.
  rewrite assign_scatter.
  destruct (@scatter_spec R R (map tagged (visits grid (flip grid))) (zeros R R))
    as [m [Hrun [Hs [Hin _]]]].
  - apply zeros_shape.
  - apply Forall_forall. intros i Hi.
    assert (Hw : In (snd i, snd (fst i))
                    (AdaptiveRegion.writes (map tagged (visits grid (flip grid)))))
      by (unfold AdaptiveRegion.writes; apply in_map_iff; exists i; auto).
    rewrite cells_visits, length_flip, Hlen in Hw. now apply in_cells in Hw.
  - rewrite cells_visits. apply NoDup_cells.
  - exists m. split; [exact Hrun|]. split; [exact Hs|].
    intros el_f el_n Hf Hn.
    assert (E : nth (R - 1 - el_f) grid 0 = nth el_f (flip grid) 0)
      by (rewrite nth_flip by (rewrite Hlen; exact Hf); now rewrite Hlen).
    rewrite E.
    apply (Hin (tagged ((el_n, nth el_n grid 0), (el_f, nth el_f (flip grid) 0)))).
    apply in_map_iff.
    exists ((el_n, nth el_n grid 0), (el_f, nth el_f (flip grid) 0)).
    split; [reflexivity|].
    apply in_visits; apply nth_error_nth';
      rewrite ?length_flip, Hlen; assumption.
Qed.

(** [env_combs] at a non-negative resolution [R] does not fail: it returns an
    [R] by [R] matrix whose cell [(el_f, el_n)] holds [AB_assess] of the
    [el_n]-th value of the grid [linspace(0, 50, R)] as [N] and of the
    [el_f]-th value from its end as [F], a value between 0 and 1. *)
Theorem env_combs_cells (resolution : Z) :
  (0 <= resolution)%Z ->
  let R := Z.to_nat resolution in
  let grid := linspace 0 50 R in
  exists m,
    env_combs resolution = Ok m /\ has_shape R R m /\
    forall el_f el_n, (el_f < R)%nat -> (el_n < R)%nat ->
      exists v,
        getitem m el_f el_n = Some v /\
        v = AB_assess (nth el_n grid 0) (nth (R - 1 - el_f) grid 0) /\
        (0 <=? v) = true /\ (v <=? 1) = true.
Proof.
  intros Hres R grid.
  destruct (env_combs_run Hres) as [m [Hrun [Hs Hcells]]].
  exists m. split; [exact Hrun|]. split; [exact Hs|].
  intros el_f el_n Hf Hn. eexists.
  split; [apply (Hcells el_f el_n Hf Hn)|]. split; [reflexivity|].
  apply AB_assess_range.
Qed.

(** In a module that is not the main one every [AB_assess] is 0.0, and
    [env_combs] returns the zero matrix it started from. *)
Theorem env_combs_elsewhere (resolution : Z) :
  name__ <> "__main__"%string -> (0 <= resolution)%Z ->
  env_combs resolution = Ok (zeros (Z.to_nat resolution) (Z.to_nat resolution)).
Proof.
  intros Hname Hres.
  destruct (env_combs_run Hres) as [m [Hrun [Hs Hcells]]].
  rewrite Hrun. apply (f_equal (@Ok matrix)).
  apply (matrix_ext Hs (zeros_shape _ _)). intros r c Hr Hc.
  rewrite (Hcells r c Hr Hc).
  rewrite (AB_assess_elsewhere pow odeint choices _ _ Hname).
  unfold getitem, zeros.
  rewrite (nth_error_nth' _ (repeat 0 (Z.to_nat resolution)))
    by (now rewrite repeat_length).
  rewrite nth_repeat.
  rewrite (nth_error_nth' _ 0) by (now rewrite repeat_length).
  now rewrite nth_repeat.
Qed.

Section Symmetric.

(** The integrator treats the two coordinates alike: on the field with the
    coordinates exchanged, from the exchanged state, it returns the exchanged
    trajectory. *)
Hypothesis odeint_exchange : forall f g y0 t,
  (forall v s, g (swap v) s = swap (f v s)) ->
  odeint g (swap y0) t = map swap (odeint f y0 t).






End Symmetric.
End Sweep.
End EnvFacts.

Module LabelRuns.
Import AdaptiveRegion Conditions.

(** The forward Euler run from [A = B = 0] has a NaN among its samples. *)
Lemma survival_of_nan_witness :
  existsb (fun p => is_nan (fst p) || is_nan (snd p))
          (map metabolites (trajectory Samples.pow Samples.euler 0 0)) = true /\
  survival Samples.pow Samples.euler 0 0 = 1.
Proof.
  split; [vm_compute; reflexivity|].
  apply LabelFacts.survival_of_nan. vm_compute; reflexivity.
Defined.

(** Held at their initial values, the runs from [(5, 0.05)] and from
    [(0.05, 5)] are each other's with the metabolites exchanged. *)
Lemma survival_exchange_witness :
  map metabolites (trajectory Samples.pow Samples.hold 5 0.05)
  = map (fun p : float * float => (snd p, fst p))
        (map metabolites (trajectory Samples.pow Samples.hold 0.05 5)) /\
  survival Samples.pow Samples.hold 5 0.05 = survival Samples.pow Samples.hold 0.05 5.
Proof.
  split; [vm_compute; reflexivity|].
  apply LabelFacts.survival_exchange. vm_compute; reflexivity.
Defined.

End LabelRuns.

Module EnvRuns.
Import Numpy FixedCondSurvival.


Lemma AB_survival_of_nan_witness :
  existsb (fun p => is_nan (fst p) || is_nan (snd p))
          (trajectory Samples.pow Samples.hold 1 1 nan 5) = true /\
  AB_survival Samples.pow Samples.hold 1 1 nan 5 = 0.
Proof.
  split; [vm_compute; reflexivity|].
  apply EnvFacts.AB_survival_of_nan. vm_compute; reflexivity.
Defined.

Lemma env_combs_cells_witness :
  exists m,
    env_combs Samples.pow Samples.hold "__main__" [] 2 = Ok m /\ has_shape 2 2 m /\
    forall el_f el_n, (el_f < 2)%nat -> (el_n < 2)%nat ->
      exists v,
        getitem m el_f el_n = Some v /\
        v = AB_assess Samples.pow Samples.hold "__main__" []
              (nth el_n (linspace 0 50 2) 0) (nth (2 - 1 - el_f) (linspace 0 50 2) 0) /\
        (0 <=? v) = true /\ (v <=? 1) = true.
Proof.
  apply (@EnvFacts.env_combs_cells Samples.pow Samples.hold "__main__" [] 2). lia.
Defined.

Lemma env_combs_elsewhere_witness :
  env_combs Samples.pow Samples.hold "__mp_main__" [] 2 = Ok (zeros 2 2).
Proof.
  apply (@EnvFacts.env_combs_elsewhere Samples.pow Samples.hold "__mp_main__" [] 2);
    [discriminate|lia].
Defined.



End EnvRuns.
